(** * pyDeltaRCM shared_tools: the stochastic routing kernel

    A shallow embedding of [pyDeltaRCM/shared_tools.py] and the properties
    of its index transforms, weight builder, weight normaliser, weighted
    sampler and step resolver.

    Conventions of the embedding.
    - Integers that numba types as [int64] are [Z], with the wrap-around of
      the machine operations written out ([wrap64]).
    - Floating-point values are idealised: a [f64] is NaN, one of the two
      infinities, or an exact real number.  Rounding and the sign of zero
      are not modelled; NaN and infinity propagation follow IEEE 754, which
      is what the NaN-as-invalid-marker logic of the source relies on.
    - numpy arrays are lists; a function that the source or numpy stops
      with an exception returns an error value.
    - The functions compiled with [@njit] do not check array subscripts.
      A read outside an array has no defined value there (the interpreter
      would raise [IndexError]); the embedding marks it [UncheckedRead] and
      follows the call no further, so that nothing is concluded from it. *)

From Stdlib Require Import Reals ZArith List Lia Lra Bool.
From Stdlib Require String.
From Equations Require Import Equations.
Import ListNotations.

(* ===================================================================== *)
(** ** Errors and results *)
(* ===================================================================== *)

Inductive error : Type :=
| IndexError         (* the source's own "Index is out of matrix bounds" *)
| ZeroDivisionError  (* integer division or modulo by zero *)
| ShapeError         (* operands of an element-wise operation disagree *)
| UncheckedRead.     (* a subscript outside the array in compiled code:
                        not an exception, the value read is unspecified *)

Inductive result (A : Type) : Type :=
| Ok (a : A)
| Raise (e : error).

Arguments Ok {A} a.
Arguments Raise {A} e.

Definition bind {A B : Type} (r : result A) (k : A -> result B) : result B :=
  match r with Ok a => k a | Raise e => Raise e end.

Notation "x <- c ;; k" := (bind c (fun x => k))
  (at level 61, c at next level, right associativity).

(* ===================================================================== *)
(** * Part I: the embedding *)
(* ===================================================================== *)

(* ===================================================================== *)
(** ** Machine integers *)
(* ===================================================================== *)

Module Int64.

Open Scope Z_scope.

Definition min_int : Z := - 2 ^ 63.
Definition max_int : Z := 2 ^ 63 - 1.

(** Two's-complement reduction of an exact result to 64 bits. *)
Definition wrap64 (z : Z) : Z := (z + 2 ^ 63) mod 2 ^ 64 - 2 ^ 63.

Definition in_range (z : Z) : Prop := min_int <= z <= max_int.

Definition add (a b : Z) : Z := wrap64 (a + b).
Definition mul (a b : Z) : Z := wrap64 (a * b).

(** [a // b] and [a % b]: floor division, as Python and numba define them;
    [Z.div] and [Z.modulo] round the same way.  A zero divisor raises. *)
Definition floordiv (a b : Z) : result Z :=
  if b =? 0 then Raise ZeroDivisionError else Ok (wrap64 (a / b)).

Definition pymod (a b : Z) : result Z :=
  if b =? 0 then Raise ZeroDivisionError else Ok (a mod b).

End Int64.

(* ===================================================================== *)
(** ** Index transform: [custom_unravel] and [custom_ravel] *)
(* ===================================================================== *)

Module IndexTransform.

Import Int64.
Open Scope Z_scope.

(** A shape is the pair [(shape[0], shape[1])]. *)
Definition shape : Type := (Z * Z)%type.

(** [[
    def custom_unravel(i, shape):
        if i > (shape[1] * shape[0]):
            raise IndexError("Index is out of matrix bounds")
        x = i // shape[1]
        y = i % shape[1]
        return x, y
    ]] *)
Definition custom_unravel (i : Z) (sh : shape) : result (Z * Z) :=
  if i >? mul (snd sh) (fst sh) then Raise IndexError
  else
    x <- floordiv i (snd sh) ;;
    y <- pymod i (snd sh) ;;
    Ok (x, y).

(** [[
    def custom_ravel(tup, shape):
        if tup[0] > shape[0] or tup[1] > shape[1]:
            raise IndexError("Index is out of matrix bounds")
        x = tup[0] * shape[1]
        y = tup[1]
        return x + y
    ]] *)
Definition custom_ravel (tup : Z * Z) (sh : shape) : result Z :=
  if (fst tup >? fst sh) || (snd tup >? snd sh) then Raise IndexError
  else
    let x := mul (fst tup) (snd sh) in
    let y := snd tup in
    Ok (add x y).

(** A shape that an array can have: both extents non-negative and the
    number of cells representable. *)
Definition valid_shape (sh : shape) : Prop :=
  0 <= fst sh /\ 0 <= snd sh /\ fst sh * snd sh <= max_int.

Definition in_grid (tup : Z * Z) (sh : shape) : Prop :=
  0 <= fst tup < fst sh /\ 0 <= snd tup < snd sh.

End IndexTransform.

(* ===================================================================== *)
(** ** Idealised floating-point values *)
(* ===================================================================== *)

Module Float.

Open Scope R_scope.

Inductive f64 : Type :=
| NaN
| PInf
| NInf
| Fin (r : R).

(** Decisions on real numbers, as booleans. *)
Definition Rleb (a b : R) : bool := if Rle_dec a b then true else false.
Definition Rltb (a b : R) : bool := if Rlt_dec a b then true else false.
Definition Reqb (a b : R) : bool := if Req_dec_T a b then true else false.

Definition of_Z (z : Z) : f64 := Fin (IZR z).

Definition isnan (x : f64) : bool :=
  match x with NaN => true | _ => false end.

Definition is_finite (x : f64) : bool :=
  match x with Fin _ => true | _ => false end.

Definition fneg (x : f64) : f64 :=
  match x with
  | NaN => NaN
  | PInf => NInf
  | NInf => PInf
  | Fin r => Fin (- r)
  end.

Definition fadd (x y : f64) : f64 :=
  match x, y with
  | NaN, _ | _, NaN => NaN
  | PInf, NInf | NInf, PInf => NaN
  | PInf, _ | _, PInf => PInf
  | NInf, _ | _, NInf => NInf
  | Fin a, Fin b => Fin (a + b)
  end.

Definition fsub (x y : f64) : f64 := fadd x (fneg y).

(** An infinity of the given sign times the finite [r]. *)
Definition inf_times (positive : bool) (r : R) : f64 :=
  if Reqb r 0 then NaN
  else if Bool.eqb positive (Rltb 0 r) then PInf else NInf.

Definition fmul (x y : f64) : f64 :=
  match x, y with
  | NaN, _ | _, NaN => NaN
  | PInf, PInf | NInf, NInf => PInf
  | PInf, NInf | NInf, PInf => NInf
  | PInf, Fin r | Fin r, PInf => inf_times true r
  | NInf, Fin r | Fin r, NInf => inf_times false r
  | Fin a, Fin b => Fin (a * b)
  end.

(** IEEE division: a zero divisor gives NaN for [0/0] and an infinity
    otherwise; nothing is raised (numpy array semantics). *)
Definition fdiv (x y : f64) : f64 :=
  match x, y with
  | NaN, _ | _, NaN => NaN
  | PInf, PInf | PInf, NInf | NInf, PInf | NInf, NInf => NaN
  | PInf, Fin r => if Rltb r 0 then NInf else PInf
  | NInf, Fin r => if Rltb r 0 then PInf else NInf
  | Fin _, PInf | Fin _, NInf => Fin 0
  | Fin a, Fin b =>
      if Reqb b 0 then
        if Reqb a 0 then NaN else if Rltb 0 a then PInf else NInf
      else Fin (a / b)
  end.

(** Comparisons; every ordered comparison with NaN is false. *)
Definition fle (x y : f64) : bool :=
  match x, y with
  | NaN, _ | _, NaN => false
  | NInf, _ | _, PInf => true
  | PInf, _ | _, NInf => false
  | Fin a, Fin b => Rleb a b
  end.

Definition flt (x y : f64) : bool :=
  match x, y with
  | NaN, _ | _, NaN => false
  | PInf, _ | _, NInf => false
  | NInf, _ | _, PInf => true
  | Fin a, Fin b => Rltb a b
  end.

Definition fgt (x y : f64) : bool := flt y x.

(** [x != y]; true whenever NaN is involved. *)
Definition fne (x y : f64) : bool :=
  match x, y with
  | NaN, _ | _, NaN => true
  | PInf, PInf | NInf, NInf => false
  | Fin a, Fin b => negb (Reqb a b)
  | _, _ => true
  end.

(** [np.maximum]: the larger operand, NaN if either is NaN. *)
Definition fmax (x y : f64) : f64 :=
  match x, y with
  | NaN, _ | _, NaN => NaN
  | _, _ => if fle x y then y else x
  end.

(** [np.sqrt] *)
Definition fsqrt (x : f64) : f64 :=
  match x with
  | NaN | NInf => NaN
  | PInf => PInf
  | Fin r => if Rltb r 0 then NaN else Fin (sqrt r)
  end.

(** Whether a real is an integer, and whether it is an odd one. *)
Definition is_int (y : R) : bool := Reqb y (IZR (Int_part y)).
Definition is_odd_int (y : R) : bool := is_int y && Z.odd (Int_part y).

(** [x ** y] on finite operands (C99 [pow]). *)
Definition pow_fin (x y : R) : f64 :=
  if Reqb y 0 then Fin 1
  else if Reqb x 1 then Fin 1
  else if Rltb 0 x then Fin (Rpower x y)
  else if Reqb x 0 then (if Rltb 0 y then Fin 0 else PInf)
  else if is_int y then
         Fin ((if is_odd_int y then -1 else 1) * Rpower (- x) y)
  else NaN.

(** [x ** y] with the special cases of C99 Annex F.9.4.4. *)
Definition fpow (x y : f64) : f64 :=
  match x, y with
  | _, Fin b =>
      if Reqb b 0 then Fin 1
      else match x with
           | NaN => NaN
           | Fin a => pow_fin a b
           | PInf => if Rltb 0 b then PInf else Fin 0
           | NInf => if Rltb 0 b
                     then (if is_odd_int b then NInf else PInf)
                     else Fin 0
           end
  | Fin a, NaN => if Reqb a 1 then Fin 1 else NaN
  | _, NaN => NaN
  | NaN, _ => NaN
  | Fin a, PInf =>
      if Reqb (Rabs a) 1 then Fin 1
      else if Rltb (Rabs a) 1 then Fin 0 else PInf
  | Fin a, NInf =>
      if Reqb (Rabs a) 1 then Fin 1
      else if Rltb (Rabs a) 1 then PInf else Fin 0
  | PInf, PInf | NInf, PInf => PInf
  | PInf, NInf | NInf, NInf => Fin 0
  end.

(** *** Arrays of floats *)

Fixpoint map2 {A B C : Type} (f : A -> B -> C) (l1 : list A) (l2 : list B)
  : list C :=
  match l1, l2 with
  | a :: t1, b :: t2 => f a b :: map2 f t1 t2
  | _, _ => []
  end.

(** [w[mask] = v] for a boolean mask as long as [w]. *)
Definition mask_set (mask : list bool) (v : f64) (w : list f64) : list f64 :=
  map2 (fun (m : bool) x => if m then v else x) mask w.

(** [w[:n] = v] *)
Fixpoint prefix_set (n : nat) (v : f64) (w : list f64) : list f64 :=
  match n, w with
  | S n', _ :: t => v :: prefix_set n' v t
  | _, _ => w
  end.

(** [w[mask]]: the entries selected by the mask. *)
Fixpoint select (mask : list bool) (w : list f64) : list f64 :=
  match mask, w with
  | m :: tm, x :: tw => if m then x :: select tm tw else select tm tw
  | _, _ => []
  end.

(** [np.sum]: accumulation from the left. *)
Definition fsum (w : list f64) : f64 := fold_left fadd w (Fin 0).

(** [np.nansum]: NaN entries count as zero. *)
Definition nansum (w : list f64) : f64 :=
  fsum (map (fun x => if isnan x then Fin 0 else x) w).

(** [np.cumsum] *)
Fixpoint cumsum_from (acc : f64) (w : list f64) : list f64 :=
  match w with
  | [] => []
  | x :: t => let s := fadd acc x in s :: cumsum_from s t
  end.

Definition cumsum (w : list f64) : list f64 :=
  match w with
  | [] => []
  | x :: t => x :: cumsum_from x t
  end.

End Float.

(* ===================================================================== *)
(** ** Direction table and step resolver *)
(* ===================================================================== *)

Module Steps.

Import Int64 Float.
Open Scope Z_scope.

(** [[
    def get_iwalk():
        return np.array([[-1, 0, 1], [-1, 0, 1], [-1, 0, 1]], dtype=np.int64)
    def get_jwalk():
        return np.array([[-1, -1, -1], [0, 0, 0], [1, 1, 1]], dtype=np.int64)
    ]] *)
Definition get_iwalk : list (list Z) :=
  [[-1; 0; 1];
   [-1; 0; 1];
   [-1; 0; 1]].

Definition get_jwalk : list (list Z) :=
  [[-1; -1; -1];
   [0; 0; 0];
   [1; 1; 1]].

(** The row-major flattening of a two-dimensional array; the flat index of
    a direction is its position in this list. *)
Definition flat {A : Type} (a : list (list A)) : list A := concat a.

(** [a[i]] for an integer subscript inside a compiled function: a negative
    subscript counts from the end; for anything else outside the array the
    read is not checked and the model has no value to give. *)
Definition getitem {A : Type} (a : list A) (i : Z) : result A :=
  let n := Z.of_nat (length a) in
  let j := if i <? 0 then i + n else i in
  if (0 <=? j) && (j <? n) then
    match nth_error a (Z.to_nat j) with
    | Some x => Ok x
    | None => Raise UncheckedRead
    end
  else Raise UncheckedRead.

(** [a[idx]] for an array of subscripts. *)
Fixpoint take {A : Type} (a : list A) (idx : list Z) : result (list A) :=
  match idx with
  | [] => Ok []
  | i :: rest =>
      x <- getitem a i ;;
      xs <- take a rest ;;
      Ok (x :: xs)
  end.

(** [[
    def get_steps(new_cells, iwalk, jwalk):
        istep = iwalk[new_cells]
        jstep = jwalk[new_cells]
        dist = np.sqrt(istep * istep + jstep * jstep)
        astep = dist != 0
        return dist, istep, jstep, astep
    ]]
    [new_cells] holds flat direction indices, [iwalk] and [jwalk] the
    flattened tables. *)
Definition get_steps (new_cells : list Z) (iwalk jwalk : list Z)
  : result (list f64 * list Z * list Z * list bool) :=
  istep <- take iwalk new_cells ;;
  jstep <- take jwalk new_cells ;;
  let dist :=
    map fsqrt (map of_Z (map2 add (map2 mul istep istep)
                                  (map2 mul jstep jstep))) in
  let astep := map (fun d => fne d (Fin 0)) dist in
  Ok (dist, istep, jstep, astep).

(** The flat index of the self direction: the centre of the table. *)
Definition self_direction : Z := 4.

End Steps.

(* ===================================================================== *)
(** ** Weight field builder and weight normaliser *)
(* ===================================================================== *)

Module Weights.

Import Float.
Open Scope R_scope.

(** [[
    def get_weight_sfc_int(stage, stage_nbrs, qx, qy, ivec, jvec, distances):
        weight_sfc = np.maximum(0, (stage - stage_nbrs) / distances)
        weight_int = np.maximum(0, (qx * jvec + qy * ivec) / distances)
        return weight_sfc, weight_int
    ]]
    [stage], [qx] and [qy] are scalars, the other arguments arrays of one
    length (broadcasting of a length-one array is not modelled). *)
Definition get_weight_sfc_int (stage : f64) (stage_nbrs : list f64)
    (qx qy : f64) (ivec jvec distances : list f64)
  : result (list f64 * list f64) :=
  let n := length distances in
  if (length stage_nbrs =? n)%nat && (length ivec =? n)%nat
     && (length jvec =? n)%nat
  then
    let weight_sfc :=
      map (fmax (Fin 0)) (map2 fdiv (map (fsub stage) stage_nbrs) distances) in
    let weight_int :=
      map (fmax (Fin 0))
          (map2 fdiv (map2 fadd (map (fmul qx) jvec) (map (fmul qy) ivec))
                distances) in
    Ok (weight_sfc, weight_int)
  else Raise ShapeError.

(** [depth_nbrs <= dry_depth] *)
Definition dry_mask (depth_nbrs : list f64) (dry_depth : f64) : list bool :=
  map (fun d => fle d dry_depth) depth_nbrs.

(** [(depth_nbrs <= dry_depth) | (ct_nbrs == -2)] *)
Definition drywall_mask (depth_nbrs : list f64) (ct_nbrs : list Z)
    (dry_depth : f64) : list bool :=
  map2 orb (dry_mask depth_nbrs dry_depth) (map (fun c => (c =? -2)%Z) ct_nbrs).

(** [if np.nansum(w) > 0: w = w / np.nansum(w)] *)
Definition normalize (w : list f64) : list f64 :=
  if fgt (nansum w) (Fin 0) then map (fun x => fdiv x (nansum w)) w else w.

(** Lines 112-118: the first-row mask and the dry/wall mask. *)
Definition masked (ind : Z * Z) (w : list f64) (depth_nbrs : list f64)
    (ct_nbrs : list Z) (dry_depth : f64) : list f64 :=
  let w := if (fst ind =? 0)%Z then prefix_set 3 NaN w else w in
  mask_set (drywall_mask depth_nbrs ct_nbrs dry_depth) NaN w.

(** Lines 112-128 of [get_weight_at_cell]: masking, normalisation,
    blending and depth modulation.  The result is the array [weight] as it
    stands when [nanWeight] is taken. *)
Definition modulated_weight (ind : Z * Z) (weight_sfc weight_int : list f64)
    (depth_nbrs : list f64) (ct_nbrs : list Z) (dry_depth gamma theta : f64)
  : list f64 :=
  let weight_sfc := normalize (masked ind weight_sfc depth_nbrs ct_nbrs dry_depth) in
  let weight_int := normalize (masked ind weight_int depth_nbrs ct_nbrs dry_depth) in
  let weight :=
    map2 fadd (map (fmul gamma) weight_sfc)
              (map (fmul (fsub (Fin 1) gamma)) weight_int) in
  let weight := map2 fmul (map (fun d => fpow d theta) depth_nbrs) weight in
  mask_set (dry_mask depth_nbrs dry_depth) (Fin 0) weight.

(** Lines 130-138: renormalisation, or the uniform fallback. *)
Definition resolve (weight : list f64) : list f64 :=
  let nanWeight := map isnan weight in
  let valid := map negb nanWeight in
  if existsb (fun x => fne x (Fin 0)) (select valid weight) then
    let weight := map (fun x => fdiv x (nansum weight)) weight in
    mask_set nanWeight (Fin 0) weight
  else
    let count := Z.of_nat (length (select valid weight)) in
    let weight := mask_set valid (fdiv (Fin 1) (of_Z (Z.max 1 count))) weight in
    mask_set nanWeight (Fin 0) weight.

(** [get_weight_at_cell].  The in-place writes to the caller's
    [weight_sfc] and [weight_int] are not part of the returned value and
    are left out. *)
Definition get_weight_at_cell (ind : Z * Z) (weight_sfc weight_int : list f64)
    (depth_nbrs : list f64) (ct_nbrs : list Z) (dry_depth gamma theta : f64)
  : result (list f64) :=
  let n := length weight_sfc in
  if (length weight_int =? n)%nat && (length depth_nbrs =? n)%nat
     && (length ct_nbrs =? n)%nat
  then Ok (resolve (modulated_weight ind weight_sfc weight_int depth_nbrs
                                     ct_nbrs dry_depth gamma theta))
  else Raise ShapeError.

(** The entries of [weight] that do not hold the invalid marker. *)
Definition valid_mask (weight : list f64) : list bool :=
  map negb (map isnan weight).

Definition count_valid (weight : list f64) : nat :=
  length (select (valid_mask weight) weight).

(** The uniform share handed out by the fallback branch. *)
Definition uniform_share (weight : list f64) : f64 :=
  fdiv (Fin 1) (of_Z (Z.max 1 (Z.of_nat (count_valid weight)))).

(** The array before the dry entries are zeroed (lines 112-127). *)
Definition blended_weight (ind : Z * Z) (weight_sfc weight_int : list f64)
    (depth_nbrs : list f64) (ct_nbrs : list Z) (dry_depth gamma theta : f64)
  : list f64 :=
  let weight_sfc := normalize (masked ind weight_sfc depth_nbrs ct_nbrs dry_depth) in
  let weight_int := normalize (masked ind weight_int depth_nbrs ct_nbrs dry_depth) in
  map2 fmul (map (fun d => fpow d theta) depth_nbrs)
       (map2 fadd (map (fmul gamma) weight_sfc)
                  (map (fmul (fsub (Fin 1) gamma)) weight_int)).

(** *** Vocabulary of the properties *)

(** An entry that is either the invalid marker or a finite number that is
    not negative. *)
Definition nonneg (x : f64) : Prop :=
  match x with
  | NaN => True
  | Fin r => 0 <= r
  | PInf | NInf => False
  end.

Definition to_R (x : f64) : R :=
  match x with Fin r => r | _ => 0 end.

(** The exact sum of the finite entries. *)
Definition total (w : list f64) : R :=
  fold_right (fun x acc => to_R x + acc) 0 w.

(** Inputs as the weight field builder and the configuration supply them:
    raw weights floored at zero (or already marked invalid), finite depths,
    a dry depth that is not negative, a mixing parameter in [0, 1] and a
    finite exponent. *)
Record well_formed (ws wi depth : list f64) (dry gamma theta : f64) : Prop := {
  wf_sfc : Forall nonneg ws;
  wf_int : Forall nonneg wi;
  wf_depth : Forall (fun d => is_finite d = true) depth;
  wf_dry : exists dd, dry = Fin dd /\ 0 <= dd;
  wf_gamma : exists g, gamma = Fin g /\ 0 <= g <= 1;
  wf_theta : is_finite theta = true
}.

(** The directions the function excludes, read off its arguments: a
    direction is invalid when its neighbour is at or below the dry depth
    (lines 116 and 128), when the neighbour is a wall cell, [ct_nbrs == -2]
    (line 116), or when it is one of the first three directions of a cell
    in row 0 (lines 112-114). *)
Definition invalid_direction (ind : Z * Z) (depth_nbrs : list f64)
    (ct_nbrs : list Z) (dry_depth : f64) (k : nat) : bool :=
  fle (nth k depth_nbrs NaN) dry_depth
  || (nth k ct_nbrs 0%Z =? -2)%Z
  || ((fst ind =? 0)%Z && (k <? 3)%nat).

Definition invalid_mask (ind : Z * Z) (depth_nbrs : list f64)
    (ct_nbrs : list Z) (dry_depth : f64) : list bool :=
  map (invalid_direction ind depth_nbrs ct_nbrs dry_depth)
      (seq 0 (length depth_nbrs)).

Definition valid_directions (ind : Z * Z) (depth_nbrs : list f64)
    (ct_nbrs : list Z) (dry_depth : f64) : list bool :=
  map negb (invalid_mask ind depth_nbrs ct_nbrs dry_depth).

(** What [np.maximum(0, num / 0)] evaluates to: the division is carried
    out, and the floor then acts on NaN or on an infinity. *)
Definition floored_zero_divide (num : R) : f64 :=
  if Reqb num 0 then NaN else if Rltb 0 num then PInf else Fin 0.

(** *** Example neighbourhoods *)

(** A flat stage without discharge: every raw weight is zero. *)
Definition flat_sfc : list f64 := repeat (Fin 0) 9.

(** Wet cells all around, with walls on every side but downstream
    (entries 6, 7, 8). *)
Definition wet_depth : list f64 := repeat (Fin 1) 9.
Definition walls_upstream : list Z := [-2; -2; -2; -2; -2; -2; 0; 0; 0]%Z.

(** Three wet cells downstream with a downhill slope, dry cells elsewhere,
    no walls. *)
Definition slope_sfc : list f64 :=
  [Fin 0; Fin 0; Fin 0; Fin 0; Fin 0; Fin 0; Fin 1; Fin 2; Fin 1].
Definition downstream_depth : list f64 :=
  [Fin 0; Fin 0; Fin 0; Fin 0; Fin 0; Fin 0; Fin 1; Fin 1; Fin 1].
Definition no_walls : list Z := repeat 0%Z 9.



(** A cell whose three downstream neighbours lie lower, with discharge
    along the rows; offsets and Euclidean distances of the direction
    table, the self direction at distance 0. *)
Definition nbr_stage : list R := [1; 1; 1; 1; 1; 1; 1 / 2; 1 / 2; 1 / 2].
Definition offsets_i : list R := [-1; 0; 1; -1; 0; 1; -1; 0; 1].
Definition offsets_j : list R := [-1; -1; -1; 0; 0; 0; 1; 1; 1].
Definition distances_r : list R :=
  [sqrt 2; 1; sqrt 2; 1; 0; 1; sqrt 2; 1; sqrt 2].

End Weights.

(* ===================================================================== *)
(** ** Random stream and weighted sampler *)
(* ===================================================================== *)

Module Sampler.

Import Float.
Open Scope R_scope.

(** [np.arange(n)] *)
Definition arange (n : nat) : list Z := map Z.of_nat (seq 0 n).

(** The loop of [np.searchsorted(a, v)] (side ['left']) as numba compiles
    it:
    [[
    lo = 0; hi = len(a)
    while hi > lo:
        mid = (lo + hi) >> 1
        if a[mid] < v: lo = mid + 1
        else:          hi = mid
    return lo
    ]] *)
Equations? searchsorted_loop (a : list f64) (v : f64) (lo hi : nat) : nat
  by wf (hi - lo)%nat lt :=
  searchsorted_loop a v lo hi with lt_dec lo hi := {
    | left _ with flt (nth ((lo + hi) / 2)%nat a NaN) v := {
        | true => searchsorted_loop a v (S ((lo + hi) / 2)%nat) hi
        | false => searchsorted_loop a v lo ((lo + hi) / 2)%nat }
    | right _ => lo }.
Proof.
  all: change (fst (Nat.divmod (lo + hi) 1 0 1)) with ((lo + hi) / 2)%nat;
       pose proof (Nat.div_mod_eq (lo + hi) 2);
       pose proof (Nat.mod_upper_bound (lo + hi) 2 ltac:(lia)); lia.
Qed.

Definition searchsorted (a : list f64) (v : f64) : nat :=
  searchsorted_loop a v 0 (length a).

Section RandomStream.

(** The process-wide generator: its state, and the draw
    [np.random.uniform(0, 1)] as a function of the state, returning the
    value drawn and the state that follows. *)
Variable rng : Type.
Variable uniform01 : rng -> R * rng.

(** [[
    def get_random_uniform(N):
        return np.random.uniform(0, 1)
    ]] *)
Definition get_random_uniform (N : Z) (s : rng) : f64 * rng :=
  let (u, s') := uniform01 s in (Fin u, s').

(** [[
    def random_pick(prob):
        arr = np.arange(len(prob))
        return arr[np.searchsorted(np.cumsum(prob), get_random_uniform(1))]
    ]]
    A subscript past the end of [arr] is an unchecked read. *)
Definition random_pick (prob : list f64) (s : rng) : result Z * rng :=
  let arr := arange (length prob) in
  let (u, s') := get_random_uniform 1 s in
  (Steps.getitem arr (Z.of_nat (searchsorted (cumsum prob) u)), s').

End RandomStream.

Arguments get_random_uniform {rng} uniform01 N s.
Arguments random_pick {rng} uniform01 prob s.

(** *** Vocabulary of the properties *)

(** Sums over real numbers: the whole list, and the cumulative sum
    [p[0] + ... + p[i]] in the order of the list. *)
Definition Rsum (ps : list R) : R := fold_right Rplus 0 ps.
Definition partial_sum (ps : list R) (i : nat) : R := Rsum (firstn (S i) ps).

(** [np.cumsum] on finite entries, as a list of real numbers. *)
Fixpoint Rcumsum_from (acc : R) (ps : list R) : list R :=
  match ps with
  | [] => []
  | p :: t => (acc + p) :: Rcumsum_from (acc + p) t
  end.

Definition Rcumsum (ps : list R) : list R :=
  match ps with
  | [] => []
  | p :: t => p :: Rcumsum_from p t
  end.

(** A nondecreasing array. *)
Definition sorted (cs : list R) : Prop :=
  forall i j, (i <= j)%nat -> (j < length cs)%nat -> nth i cs 0 <= nth j cs 0.

(** *** Examples *)

(** A small stream: the state counts the draws, which cycle through
    0, 1/4, 1/2 and 3/4. *)
Definition cycle_stream (n : nat) : R * nat := (INR (n mod 4) / 4, S n).

(** Two directions of equal weight. *)
Definition half_half : list R := [1 / 2; 1 / 2; 0; 0; 0; 0; 0; 0; 0].

End Sampler.

(* ===================================================================== *)
(** ** Start-position sampler *)
(* ===================================================================== *)

Module Inlet.

Import Float Sampler.
Open Scope R_scope.

Section RandomStream.

Variable rng : Type.
Variable uniform01 : rng -> R * rng.

(** The loop
    [[
    idxs = []
    for x in np.arange(num_starts):
        idxs.append(random_pick(norm_weights))
    ]]
    with the stream threaded through the calls; the model stops at the
    first pick that has no defined value. *)
Fixpoint pick_loop (n : nat) (norm_weights : list f64) (s : rng)
  : result (list Z) * rng :=
  match n with
  | O => (Ok [], s)
  | S n' =>
      let (r, s1) := random_pick uniform01 norm_weights s in
      match r with
      | Raise e => (Raise e, s1)
      | Ok i =>
          let (rest, s2) := pick_loop n' norm_weights s1 in
          (idxs <- rest ;; Ok (i :: idxs), s2)
      end
  end.

(** [[
    def get_start_indices(inlet, inlet_weights, num_starts):
        norm_weights = inlet_weights / np.sum(inlet_weights)
        idxs = []
        for x in np.arange(num_starts):
            idxs.append(random_pick(norm_weights))
        idxs = np.array(idxs)
        return inlet.take(idxs)
    ]]
    [np.arange] of a negative count is empty. *)
Definition get_start_indices (inlet : list Z) (inlet_weights : list f64)
    (num_starts : Z) (s : rng) : result (list Z) * rng :=
  let norm_weights :=
    map (fun w => fdiv w (fsum inlet_weights)) inlet_weights in
  let (idxs, s') := pick_loop (Z.to_nat num_starts) norm_weights s in
  (idxs <- idxs ;; Steps.take inlet idxs, s').

(** The state of the stream after [n] draws. *)
Fixpoint draws (n : nat) (s : rng) : rng :=
  match n with
  | O => s
  | S n' => draws n' (snd (uniform01 s))
  end.

End RandomStream.

(** [np.cumsum(norm_weights)[-1]] for the [norm_weights] of
    [get_start_indices]: the value the search compares a draw with last.
    It is 1 when the division and the additions are exact. *)
Definition norm_total (inlet_weights : list f64) : f64 :=
  let norm_weights :=
    map (fun w => fdiv w (fsum inlet_weights)) inlet_weights in
  nth (length norm_weights - 1) (cumsum norm_weights) NaN.

Arguments pick_loop {rng} uniform01 n norm_weights s.
Arguments get_start_indices {rng} uniform01 inlet inlet_weights num_starts s.
Arguments draws {rng} uniform01 n s.

(** *** Examples *)

(** Three inlet cells, the middle one twice as likely as the others. *)
Definition inlet_cells : list Z := [12; 13; 14]%Z.
Definition inlet_weights_r : list R := [1; 2; 1].

End Inlet.

(* ===================================================================== *)
(** ** Model time scaling *)
(* ===================================================================== *)

Module TimeScale.

Import Float.
Import String.
Open Scope R_scope.
Open Scope string_scope.

(** The exceptions of the two functions: the [ValueError] they raise
    themselves, and the [ZeroDivisionError] of a Python float division. *)
Inductive exn : Type :=
| ValueError
| ZeroDivision.

Inductive outcome (A : Type) : Type :=
| Return (a : A)
| Throw (e : exn).

Arguments Return {A} a.
Arguments Throw {A} e.

(** [x / y] on Python floats: a zero divisor raises. *)
Definition pydiv (x y : f64) : outcome f64 :=
  match y with
  | Fin b => if Reqb b 0 then Throw ZeroDivision else Return (fdiv x y)
  | _ => Return (fdiv x y)
  end.

Definition sec_in_day : f64 := Fin 86400.

(** 365.25 *)
Definition day_in_yr : f64 := Fin (1461 / 4).

(** [[
    def _scale_factor(If, units):
        sec_in_day = 86400
        day_in_yr = 365.25
        if units == 'seconds':
            S_f = 1
        elif units == 'days':
            S_f = sec_in_day
        elif units == 'years':
            S_f = sec_in_day * day_in_yr
        else:
            raise ValueError('Bad value for `units`: %s' % str(units))
        return (If * S_f)
    ]] *)
Definition _scale_factor (If : f64) (units : string) : outcome f64 :=
  if String.eqb units "seconds" then Return (fmul If (Fin 1))
  else if String.eqb units "days" then Return (fmul If sec_in_day)
  else if String.eqb units "years" then
    Return (fmul If (fmul sec_in_day day_in_yr))
  else Throw ValueError.

(** [[
    def scale_model_time(time, If=1, units='seconds'):
        if (If <= 0) or (If > 1):
            raise ValueError(
                'Intermittency `If` is not 0 < If <= 1: %s' % str(If))
        return time / _scale_factor(If, units)
    ]] *)
Definition scale_model_time (time If : f64) (units : string) : outcome f64 :=
  if fle If (Fin 0) || fgt If (Fin 1) then Throw ValueError
  else
    match _scale_factor If units with
    | Return factor => pydiv time factor
    | Throw e => Throw e
    end.

(** The number of seconds in one unit. *)
Definition unit_seconds (units : string) : R :=
  if String.eqb units "seconds" then 1
  else if String.eqb units "days" then 86400
  else 86400 * (1461 / 4).

(** The units the scaling knows. *)
Definition known_units (units : string) : Prop :=
  units = "seconds" \/ units = "days" \/ units = "years".

End TimeScale.

(* ===================================================================== *)
(** ** Further vocabulary of the properties *)
(* ===================================================================== *)

Module Vocabulary.

Import Float.
Open Scope R_scope.

(** An offset whose square cannot leave the 64-bit range. *)
Definition small (z : Z) : Prop := (- 2 ^ 31 < z < 2 ^ 31)%Z.

(** A finite number between 0 and 1. *)
Definition unit_interval (x : f64) : Prop :=
  exists r, x = Fin r /\ 0 <= r <= 1.

(** The values a floored quotient can take: the invalid marker, positive
    infinity, or a finite number that is not negative. *)
Definition floored (x : f64) : Prop :=
  x = NaN \/ x = PInf \/ exists r, x = Fin r /\ 0 <= r.

Definition finite_nonneg (x : f64) : Prop :=
  exists r, x = Fin r /\ 0 <= r.

(** The finite number zero. *)
Definition is_zero (x : f64) : Prop := x = Fin 0.


(** The distance table with 1 at the centre. *)
Definition distances_unit_centre : list R :=
  [sqrt 2; 1; sqrt 2; 1; 1; 1; sqrt 2; 1; sqrt 2].

(** Two results agree when they differ by at most the relative tolerance
    1e-9, far above the rounding error of a few double-precision
    operations. *)
Definition tolerance : R := 1 / 10 ^ 9.
Definition agree (a b : R) : Prop := Rabs (a - b) <= tolerance * Rabs a.

End Vocabulary.

(* ===================================================================== *)
(** * Part II: properties *)
(* ===================================================================== *)

(* ===================================================================== *)
(** ** Machine integers *)
(* ===================================================================== *)

Module Int64Facts.

Import Int64.
Open Scope Z_scope.

Lemma wrap64_id (z : Z) : in_range z -> wrap64 z = z.
Proof.
  unfold in_range, min_int, max_int, wrap64. intros H.
  rewrite Z.mod_small; lia.
Qed.

Lemma wrap64_in_range (z : Z) : in_range (wrap64 z).
Proof.
  unfold in_range, min_int, max_int, wrap64.
  pose proof (Z.mod_pos_bound (z + 2 ^ 63) (2 ^ 64)). lia.
Qed.

Lemma gtb_false (a b : Z) : a <= b -> (a >? b) = false.
Proof. intros H. rewrite Z.gtb_ltb. apply Z.ltb_ge. exact H. Qed.

Lemma gtb_true (a b : Z) : b < a -> (a >? b) = true.
Proof. intros H. rewrite Z.gtb_ltb. apply Z.ltb_lt. exact H. Qed.

End Int64Facts.

(* ===================================================================== *)
(** ** Index transform *)
(* ===================================================================== *)

Module IndexTransformProps.

Import Int64 Int64Facts IndexTransform.
Open Scope Z_scope.

Lemma ravel_exact (row col m n : Z) :
  valid_shape (m, n) -> in_grid (row, col) (m, n) ->
  custom_ravel (row, col) (m, n) = Ok (row * n + col).
Proof.
  unfold valid_shape, in_grid, custom_ravel; simpl.
  intros (Hm & Hn & Hmn) ((Hr0 & Hr1) & (Hc0 & Hc1)).
  assert (Hlt : row * n + col < m * n) by nia.
  assert (Hge : 0 <= row * n) by nia.
  rewrite (gtb_false row m), (gtb_false col n) by lia. simpl.
  unfold add, mul.
  rewrite (wrap64_id (row * n)) by (unfold in_range, min_int, max_int in *; lia).
  rewrite wrap64_id by (unfold in_range, min_int, max_int in *; lia).
  reflexivity.
Qed.

(** C7. Round trip: for a grid shape [(m, n)] and every coordinate pair
    with [0 <= row < m] and [0 <= col < n], ravelling the pair and
    unravelling the flat index gives the pair back. *)
Theorem unravel_ravel_roundtrip (row col m n : Z) :
  valid_shape (m, n) -> in_grid (row, col) (m, n) ->
  (i <- custom_ravel (row, col) (m, n) ;; custom_unravel i (m, n))
  = Ok (row, col).
Proof.
  intros Hs Hg. rewrite (ravel_exact _ _ _ _ Hs Hg). simpl.
  destruct Hs as (Hm & Hn & Hmn); simpl in *.
  destruct Hg as ((Hr0 & Hr1) & (Hc0 & Hc1)); simpl in *.
  unfold custom_unravel; simpl.
  assert (Hlt : row * n + col < m * n) by nia.
  unfold mul. rewrite (Z.mul_comm n m).
  rewrite wrap64_id by (unfold in_range, min_int, max_int in *; nia).
  rewrite gtb_false by lia.
  assert (Hq : (row * n + col) / n = row)
    by (symmetry; apply (Z.div_unique_pos _ _ _ col); lia).
  assert (Hy : (row * n + col) mod n = col)
    by (symmetry; apply (Z.mod_unique_pos _ _ row); lia).
  unfold floordiv, pymod.
  replace (n =? 0) with false by (symmetry; apply Z.eqb_neq; lia).
  cbn [bind]. rewrite Hq, Hy.
  rewrite wrap64_id; [reflexivity|].
  unfold in_range, min_int, max_int in *; nia.
Qed.

Lemma unravel_ravel_roundtrip_witness :
  valid_shape (5, 7) /\ in_grid (3, 6) (5, 7) /\
  (i <- custom_ravel (3, 6) (5, 7) ;; custom_unravel i (5, 7)) = Ok (3, 6).
Proof.
  assert (Hs : valid_shape (5, 7)) by (unfold valid_shape, max_int; simpl; lia).
  assert (Hg : in_grid (3, 6) (5, 7)) by (unfold in_grid; simpl; lia).
  split; [exact Hs | split; [exact Hg |]].
  exact (unravel_ravel_roundtrip 3 6 5 7 Hs Hg).
Defined.

(** The other direction of the bijection, on the valid domain. *)
Lemma ravel_unravel_roundtrip (i m n : Z) :
  valid_shape (m, n) -> 0 <= i < m * n ->
  (rc <- custom_unravel i (m, n) ;; custom_ravel rc (m, n)) = Ok i.
Proof.
  intros (Hm & Hn & Hmn) Hi; simpl in *.
  assert (Hn0 : 0 < n) by nia.
  unfold custom_unravel; simpl.
  unfold mul. rewrite (Z.mul_comm n m).
  rewrite wrap64_id by (unfold in_range, min_int, max_int in *; nia).
  rewrite gtb_false by lia.
  unfold floordiv, pymod.
  replace (n =? 0) with false by (symmetry; apply Z.eqb_neq; lia).
  simpl.
  pose proof (Z.div_pos i n ltac:(lia) Hn0) as Hq0.
  pose proof (Z.div_lt_upper_bound i n m Hn0 ltac:(lia)) as Hq1.
  pose proof (Z.mod_pos_bound i n Hn0) as Hr.
  rewrite wrap64_id by (unfold in_range, min_int, max_int in *; nia).
  rewrite ravel_exact.
  - f_equal. rewrite (Z.div_mod i n) at 3 by lia. lia.
  - unfold valid_shape; simpl; lia.
  - unfold in_grid; simpl; nia.
Qed.

(** C8, the bounds checks as the code has them.  The comparisons are
    strict, so the first index past the end is accepted by both functions,
    and nothing rejects a negative input. *)
Theorem bounds_check_accepts_one_past_end :
  custom_unravel 6 (2, 3) = Ok (2, 0) /\
  custom_ravel (2, 3) (2, 3) = Ok 9 /\
  custom_ravel (2, 0) (2, 3) = Ok 6 /\
  custom_unravel (-1) (2, 3) = Ok (-1, 2) /\
  custom_ravel (-1, 0) (2, 3) = Ok (-3).
Proof. repeat split; vm_compute; reflexivity. Qed.

(** What the checks do reject: anything strictly beyond the extents. *)
Lemma custom_unravel_rejects (i m n : Z) :
  valid_shape (m, n) -> m * n < i -> custom_unravel i (m, n) = Raise IndexError.
Proof.
  intros (Hm & Hn & Hmn) Hi; simpl in *.
  unfold custom_unravel; simpl. unfold mul. rewrite (Z.mul_comm n m).
  rewrite wrap64_id by (unfold in_range, min_int, max_int in *; nia).
  rewrite gtb_true by lia.
  reflexivity.
Qed.

Lemma custom_ravel_rejects (row col m n : Z) :
  m < row \/ n < col -> custom_ravel (row, col) (m, n) = Raise IndexError.
Proof.
  intros H. unfold custom_ravel; simpl.
  destruct H as [H | H].
  - rewrite (gtb_true row m) by lia. reflexivity.
  - rewrite (gtb_true col n) by lia. rewrite orb_true_r. reflexivity.
Qed.

End IndexTransformProps.

(* ===================================================================== *)
(** ** Floating-point values *)
(* ===================================================================== *)

Module FloatFacts.

Import Float.
Open Scope R_scope.

(** *** Decisions on real numbers *)

Lemma Rleb_true (a b : R) : a <= b -> Rleb a b = true.
Proof. unfold Rleb. destruct (Rle_dec a b); [reflexivity | contradiction]. Qed.

Lemma Rleb_false (a b : R) : b < a -> Rleb a b = false.
Proof. unfold Rleb. destruct (Rle_dec a b); [lra | reflexivity]. Qed.

Lemma Rltb_true (a b : R) : a < b -> Rltb a b = true.
Proof. unfold Rltb. destruct (Rlt_dec a b); [reflexivity | contradiction]. Qed.

Lemma Rltb_false (a b : R) : b <= a -> Rltb a b = false.
Proof. unfold Rltb. destruct (Rlt_dec a b); [lra | reflexivity]. Qed.

Lemma Reqb_true (a b : R) : a = b -> Reqb a b = true.
Proof. unfold Reqb. destruct (Req_dec_T a b); [reflexivity | contradiction]. Qed.

Lemma Reqb_false (a b : R) : a <> b -> Reqb a b = false.
Proof. unfold Reqb. destruct (Req_dec_T a b); [contradiction | reflexivity]. Qed.

Lemma Rleb_spec (a b : R) : Rleb a b = true <-> a <= b.
Proof. unfold Rleb. destruct (Rle_dec a b); split; auto; discriminate. Qed.

Lemma Rltb_spec (a b : R) : Rltb a b = true <-> a < b.
Proof. unfold Rltb. destruct (Rlt_dec a b); split; auto; discriminate. Qed.

Lemma Reqb_spec (a b : R) : Reqb a b = true <-> a = b.
Proof. unfold Reqb. destruct (Req_dec_T a b); split; auto; discriminate. Qed.

Lemma Rleb_false_iff (a b : R) : Rleb a b = false <-> b < a.
Proof. unfold Rleb. destruct (Rle_dec a b); split; intros; try lra; easy. Qed.

Lemma Rltb_false_iff (a b : R) : Rltb a b = false <-> b <= a.
Proof. unfold Rltb. destruct (Rlt_dec a b); split; intros; try lra; easy. Qed.

Lemma Reqb_false_iff (a b : R) : Reqb a b = false <-> a <> b.
Proof. unfold Reqb. destruct (Req_dec_T a b); split; intros; easy. Qed.

Global Opaque Rleb Rltb Reqb.

(** Case analysis on a decision, leaving the fact it decides. *)
Ltac rcase a b :=
  let E := fresh "E" in
  match goal with
  | |- context [Reqb a b] =>
      destruct (Reqb a b) eqn:E;
      [apply Reqb_spec in E | apply Reqb_false_iff in E]
  | |- context [Rltb a b] =>
      destruct (Rltb a b) eqn:E;
      [apply Rltb_spec in E | apply Rltb_false_iff in E]
  | |- context [Rleb a b] =>
      destruct (Rleb a b) eqn:E;
      [apply Rleb_spec in E | apply Rleb_false_iff in E]
  end.

(** Settles every decision between real expressions that [lra] can. *)
Ltac rdecide :=
  repeat match goal with
  | |- context [Rleb ?a ?b] =>
      first [ rewrite (Rleb_true a b) by lra | rewrite (Rleb_false a b) by lra ]
  | |- context [Rltb ?a ?b] =>
      first [ rewrite (Rltb_true a b) by lra | rewrite (Rltb_false a b) by lra ]
  | |- context [Reqb ?a ?b] =>
      first [ rewrite (Reqb_true a b) by lra | rewrite (Reqb_false a b) by lra ]
  end.

(** *** Element-wise operations on lists *)

Lemma map2_length {A B C : Type} (f : A -> B -> C) (l1 : list A) (l2 : list B) :
  length l1 = length l2 -> length (map2 f l1 l2) = length l1.
Proof.
  revert l2. induction l1 as [|a t IH]; intros [|b t2] H; simpl in *;
    try reflexivity; try discriminate.
  f_equal. apply IH. lia.
Qed.

Lemma map2_nth {A B C : Type} (f : A -> B -> C) (l1 : list A) (l2 : list B)
      (k : nat) (da : A) (db : B) (dc : C) :
  length l1 = length l2 -> (k < length l1)%nat ->
  nth k (map2 f l1 l2) dc = f (nth k l1 da) (nth k l2 db).
Proof.
  revert l2 k. induction l1 as [|a t IH]; intros [|b t2] k H Hk; simpl in *;
    try lia.
  destruct k as [|k]; [reflexivity|]. apply IH; lia.
Qed.

Lemma nth_map_lt {A B : Type} (f : A -> B) (l : list A) (k : nat)
      (da : A) (db : B) :
  (k < length l)%nat -> nth k (map f l) db = f (nth k l da).
Proof.
  intros Hk. rewrite (nth_indep _ db (f da)) by (rewrite length_map; exact Hk).
  apply map_nth.
Qed.

End FloatFacts.

(* ===================================================================== *)
(** ** Step resolver *)
(* ===================================================================== *)

Module StepsProps.

Import Int64 Float FloatFacts Steps.
Open Scope R_scope.

(** Evaluates a call of [get_steps] on concrete subscripts: the integer
    part by computation, the square roots by their values. *)
Ltac steps_eval :=
  unfold get_steps, self_direction;
  repeat match goal with
  | |- context [take ?a ?b] =>
      let v := eval vm_compute in (take a b) in change (take a b) with v
  end;
  cbn [bind];
  repeat match goal with
  | |- context [map2 add ?a ?b] =>
      let v := eval vm_compute in (map2 add a b) in
      change (map2 add a b) with v
  end;
  cbn [map of_Z fsqrt];
  pose proof (sqrt_lt_R0 2 ltac:(lra));
  rdecide; rewrite ?sqrt_0, ?sqrt_1;
  cbn [map fne negb]; rdecide; cbn [negb];
  reflexivity.

(** C9. On the flattened direction table, the self direction (flat
    index 4) resolves to distance 0 and [is_moving = false]; each of the
    four orthogonal directions resolves to distance 1 and each of the four
    diagonal directions to distance [sqrt 2], all eight with
    [is_moving = true]. *)
Theorem get_steps_directions :
  let iw := flat get_iwalk in
  let jw := flat get_jwalk in
  get_steps [self_direction] iw jw = Ok ([Fin 0], [0%Z], [0%Z], [false]) /\
  get_steps [1%Z] iw jw = Ok ([Fin 1], [0%Z], [(-1)%Z], [true]) /\
  get_steps [3%Z] iw jw = Ok ([Fin 1], [(-1)%Z], [0%Z], [true]) /\
  get_steps [5%Z] iw jw = Ok ([Fin 1], [1%Z], [0%Z], [true]) /\
  get_steps [7%Z] iw jw = Ok ([Fin 1], [0%Z], [1%Z], [true]) /\
  get_steps [0%Z] iw jw = Ok ([Fin (sqrt 2)], [(-1)%Z], [(-1)%Z], [true]) /\
  get_steps [2%Z] iw jw = Ok ([Fin (sqrt 2)], [1%Z], [(-1)%Z], [true]) /\
  get_steps [6%Z] iw jw = Ok ([Fin (sqrt 2)], [(-1)%Z], [1%Z], [true]) /\
  get_steps [8%Z] iw jw = Ok ([Fin (sqrt 2)], [1%Z], [1%Z], [true]).
Proof.
  intros iw jw. subst iw jw. repeat split; steps_eval.
Qed.

(** All nine directions in one call. *)
Example get_steps_batch :
  get_steps [0; 1; 2; 3; 4; 5; 6; 7; 8]%Z (flat get_iwalk) (flat get_jwalk)
  = Ok ([Fin (sqrt 2); Fin 1; Fin (sqrt 2);
         Fin 1; Fin 0; Fin 1;
         Fin (sqrt 2); Fin 1; Fin (sqrt 2)],
        [-1; 0; 1; -1; 0; 1; -1; 0; 1]%Z,
        [-1; -1; -1; 0; 0; 0; 1; 1; 1]%Z,
        [true; true; true; true; false; true; true; true; true]).
Proof. steps_eval. Qed.

(** A subscript outside the table reads past it: the model resolves no
    direction. *)
Example get_steps_out_of_table :
  get_steps [9%Z] (flat get_iwalk) (flat get_jwalk) = Raise UncheckedRead.
Proof. reflexivity. Qed.

End StepsProps.

(* ===================================================================== *)
(** ** Weight field builder and weight normaliser *)
(* ===================================================================== *)

Module WeightsProps.

Import Float FloatFacts Weights.
Open Scope R_scope.

(** *** Masks and selections computed from the array they act on *)

Lemma mask_set_map {A : Type} (p : A -> bool) (g : A -> f64) (v : f64)
      (l : list A) :
  mask_set (map p l) v (map g l) = map (fun x => if p x then v else g x) l.
Proof.
  unfold mask_set. induction l as [|x t IH]; simpl; [reflexivity|].
  rewrite IH. reflexivity.
Qed.

Lemma mask_set_self (p : f64 -> bool) (v : f64) (w : list f64) :
  mask_set (map p w) v w = map (fun x => if p x then v else x) w.
Proof.
  rewrite <- (map_id w) at 2. apply mask_set_map.
Qed.

Lemma select_filter (p : f64 -> bool) (w : list f64) :
  select (map p w) w = filter p w.
Proof.
  induction w as [|x t IH]; simpl; [reflexivity|].
  rewrite IH. reflexivity.
Qed.

Lemma valid_mask_select (w : list f64) :
  select (valid_mask w) w = filter (fun x => negb (isnan x)) w.
Proof.
  unfold valid_mask. rewrite map_map. apply select_filter.
Qed.

(** [resolve], entry by entry. *)
Lemma resolve_pointwise (w : list f64) :
  resolve w =
  if existsb (fun x => fne x (Fin 0)) (filter (fun x => negb (isnan x)) w)
  then map (fun x => if isnan x then Fin 0 else fdiv x (nansum w)) w
  else map (fun x => if isnan x then Fin 0 else uniform_share w) w.
Proof.
  unfold resolve, uniform_share, count_valid.
  fold (valid_mask w). rewrite valid_mask_select.
  destruct (existsb _ _).
  - apply mask_set_map.
  - unfold valid_mask. rewrite map_map, mask_set_self.
    rewrite (mask_set_map isnan _ (Fin 0) w).
    apply map_ext. intros x. destruct x; reflexivity.
Qed.

Lemma resolve_length (w : list f64) : length (resolve w) = length w.
Proof.
  rewrite resolve_pointwise. destruct (existsb _ _); apply length_map.
Qed.

Lemma uniform_share_pos (w : list f64) :
  (0 < count_valid w)%nat ->
  uniform_share w = Fin (1 / INR (count_valid w)).
Proof.
  intros Hk. unfold uniform_share, of_Z, fdiv.
  rewrite Z.max_r by lia. rewrite <- INR_IZR_INZ.
  assert (0 < INR (count_valid w)) by (apply lt_0_INR; exact Hk).
  rewrite Reqb_false by lra. reflexivity.
Qed.

Lemma count_valid_pos (w : list f64) (k : nat) :
  (k < length w)%nat -> isnan (nth k w NaN) = false ->
  (0 < count_valid w)%nat.
Proof.
  intros Hk Hv. unfold count_valid. rewrite valid_mask_select.
  assert (Hin : In (nth k w NaN) (filter (fun x => negb (isnan x)) w)).
  { apply filter_In. split; [apply nth_In; exact Hk | rewrite Hv; reflexivity]. }
  destruct (filter _ w); [contradiction | simpl; lia].
Qed.

Lemma fallback_branch (w : list f64) :
  (forall k, (k < length w)%nat -> isnan (nth k w NaN) = false ->
             nth k w NaN = Fin 0) ->
  existsb (fun x => fne x (Fin 0)) (filter (fun x => negb (isnan x)) w) = false.
Proof.
  intros Hz. apply not_true_is_false. intros He.
  apply existsb_exists in He. destruct He as (x & Hin & Hne).
  apply filter_In in Hin. destruct Hin as (Hin & Hv).
  destruct (In_nth w x NaN Hin) as (k & Hk & Hnth).
  specialize (Hz k Hk). rewrite Hnth in Hz.
  rewrite Hz in Hne.
  - simpl in Hne. rewrite Reqb_true in Hne by reflexivity. discriminate.
  - destruct (isnan x); [discriminate | reflexivity].
Qed.

Lemma shapes_agree (ind : Z * Z) (ws wi depth : list f64)
      (ct : list Z) (dry gamma theta : f64) (w : list f64) :
  get_weight_at_cell ind ws wi depth ct dry gamma theta = Ok w ->
  w = resolve (modulated_weight ind ws wi depth ct dry gamma theta).
Proof.
  unfold get_weight_at_cell. destruct (_ && _); [|discriminate].
  intros H. injection H as H. symmetry. exact H.
Qed.

(** Unfolds the weight functions on concrete arrays and settles the
    comparisons between the numbers that appear. *)
Ltac wcompute :=
  unfold get_weight_at_cell, get_weight_sfc_int, resolve, modulated_weight,
    masked, normalize, drywall_mask, dry_mask, valid_mask, count_valid,
    uniform_share, nansum, fsum, fgt, of_Z;
  repeat (progress (cbn; try unfold pow_fin, inf_times, is_odd_int, is_int;
                    rdecide)).

(** *** The uniform fallback *)

(** Lines 135-137 in terms of the markers left in the array.  When at
    least one entry of the modulated weight array does not hold the NaN
    marker and every such entry is exactly zero, the returned array holds
    [1/k] at each of the [k] unmarked entries and [0] at every marked one.
    The unmarked entries include the dry directions, which line 128 has
    reset from NaN to zero. *)
Lemma uniform_fallback (ind : Z * Z) (ws wi depth : list f64) (ct : list Z)
    (dry gamma theta : f64) (m w : list f64) :
  m = modulated_weight ind ws wi depth ct dry gamma theta ->
  get_weight_at_cell ind ws wi depth ct dry gamma theta = Ok w ->
  (exists k, (k < length m)%nat /\ isnan (nth k m NaN) = false) ->
  (forall k, (k < length m)%nat -> isnan (nth k m NaN) = false ->
             nth k m NaN = Fin 0) ->
  length w = length m /\
  (forall k, (k < length m)%nat ->
     nth k w NaN = if isnan (nth k m NaN) then Fin 0
                   else Fin (1 / INR (count_valid m))) /\
  (count_valid m = 3%nat ->
   forall k, (k < length m)%nat ->
     nth k w NaN = if isnan (nth k m NaN) then Fin 0 else Fin (1 / 3)).
Proof.
  intros Hm Hw (k0 & Hk0 & Hv0) Hzero.
  apply shapes_agree in Hw. rewrite <- Hm in Hw. subst w.
  assert (Hpos : (0 < count_valid m)%nat) by (eapply count_valid_pos; eauto).
  assert (Hnth : forall k, (k < length m)%nat ->
            nth k (resolve m) NaN =
            if isnan (nth k m NaN) then Fin 0
            else Fin (1 / INR (count_valid m))).
  { intros k Hk. rewrite resolve_pointwise, (fallback_branch m Hzero).
    rewrite <- (uniform_share_pos m Hpos).
    rewrite (nth_map_lt _ _ _ NaN NaN) by exact Hk. reflexivity. }
  split; [apply resolve_length | split; [exact Hnth |]].
  intros H3 k Hk. rewrite (Hnth k Hk), H3. simpl INR.
  replace (1 + 1 + 1) with 3 by lra. reflexivity.
Qed.

Lemma walls_upstream_modulated :
  modulated_weight (1, 1)%Z flat_sfc flat_sfc wet_depth walls_upstream
                   (Fin (1 / 10)) (Fin (1 / 2)) (Fin 1)
  = [NaN; NaN; NaN; NaN; NaN; NaN; Fin 0; Fin 0; Fin 0].
Proof.
  unfold flat_sfc, wet_depth, walls_upstream. wcompute.
  repeat (f_equal; try lra).
Qed.

Lemma uniform_fallback_witness :
  let m := [NaN; NaN; NaN; NaN; NaN; NaN; Fin 0; Fin 0; Fin 0] in
  let w := resolve m in
  length w = length m /\
  (forall k, (k < length m)%nat ->
     nth k w NaN = if isnan (nth k m NaN) then Fin 0
                   else Fin (1 / INR (count_valid m))) /\
  (count_valid m = 3%nat ->
   forall k, (k < length m)%nat ->
     nth k w NaN = if isnan (nth k m NaN) then Fin 0 else Fin (1 / 3)).
Proof.
  intros m w.
  apply (uniform_fallback (1, 1)%Z flat_sfc flat_sfc wet_depth walls_upstream
           (Fin (1 / 10)) (Fin (1 / 2)) (Fin 1) m w).
  - symmetry. exact walls_upstream_modulated.
  - unfold get_weight_at_cell. simpl. unfold w.
    rewrite walls_upstream_modulated. reflexivity.
  - exists 6%nat. split; [simpl; lia | reflexivity].
  - intros k Hk Hv.
    do 9 (destruct k as [|k]; [first [discriminate Hv | reflexivity] |]).
    simpl in Hk. lia.
Defined.

(** The same call, evaluated. *)
Example uniform_fallback_three :
  get_weight_at_cell (1, 1)%Z flat_sfc flat_sfc wet_depth walls_upstream
                     (Fin (1 / 10)) (Fin (1 / 2)) (Fin 1)
  = Ok [Fin 0; Fin 0; Fin 0; Fin 0; Fin 0; Fin 0;
        Fin (1 / 3); Fin (1 / 3); Fin (1 / 3)].
Proof.
  unfold get_weight_at_cell. simpl length. simpl Nat.eqb. cbn [andb].
  rewrite walls_upstream_modulated. wcompute. reflexivity.
Qed.

(** *** Array lengths *)

Lemma prefix_set_length (n : nat) (v : f64) (w : list f64) :
  length (prefix_set n v w) = length w.
Proof.
  revert w. induction n as [|n IH]; intros [|x t]; simpl; try reflexivity.
  f_equal. apply IH.
Qed.

Lemma mask_set_length (mask : list bool) (v : f64) (w : list f64) :
  length mask = length w -> length (mask_set mask v w) = length w.
Proof.
  intros H. unfold mask_set. rewrite map2_length; assumption.
Qed.

Lemma normalize_length (w : list f64) : length (normalize w) = length w.
Proof.
  unfold normalize. destruct (fgt _ _); [apply length_map | reflexivity].
Qed.

Lemma dry_mask_length (depth : list f64) (dry : f64) :
  length (dry_mask depth dry) = length depth.
Proof. apply length_map. Qed.

Lemma drywall_mask_length (depth : list f64) (ct : list Z) (dry : f64) :
  length depth = length ct ->
  length (drywall_mask depth ct dry) = length depth.
Proof.
  intros H. unfold drywall_mask.
  rewrite map2_length; rewrite dry_mask_length; [reflexivity|].
  rewrite length_map. exact H.
Qed.

Lemma masked_length (ind : Z * Z) (w depth : list f64) (ct : list Z)
      (dry : f64) :
  length w = length depth -> length depth = length ct ->
  length (masked ind w depth ct dry) = length depth.
Proof.
  intros Hw Hc. unfold masked.
  rewrite mask_set_length.
  - destruct (fst ind =? 0)%Z; [rewrite prefix_set_length|]; exact Hw.
  - rewrite drywall_mask_length by exact Hc.
    destruct (fst ind =? 0)%Z; [rewrite prefix_set_length|]; symmetry; exact Hw.
Qed.

Lemma modulated_blended (ind : Z * Z) (ws wi depth : list f64) (ct : list Z)
      (dry gamma theta : f64) :
  modulated_weight ind ws wi depth ct dry gamma theta =
  mask_set (dry_mask depth dry) (Fin 0)
           (blended_weight ind ws wi depth ct dry gamma theta).
Proof. reflexivity. Qed.

Lemma blended_length (ind : Z * Z) (ws wi depth : list f64) (ct : list Z)
      (dry gamma theta : f64) :
  length ws = length depth -> length wi = length depth ->
  length depth = length ct ->
  length (blended_weight ind ws wi depth ct dry gamma theta) = length depth.
Proof.
  intros Hs Hi Hc. unfold blended_weight.
  rewrite map2_length; rewrite length_map; [reflexivity|].
  rewrite map2_length; rewrite !length_map, !normalize_length,
    !masked_length; auto.
Qed.

Lemma modulated_length (ind : Z * Z) (ws wi depth : list f64) (ct : list Z)
      (dry gamma theta : f64) :
  length ws = length depth -> length wi = length depth ->
  length depth = length ct ->
  length (modulated_weight ind ws wi depth ct dry gamma theta) = length depth.
Proof.
  intros Hs Hi Hc. rewrite modulated_blended.
  rewrite mask_set_length; rewrite ?dry_mask_length, blended_length; auto.
Qed.

Lemma shapes_ok (ind : Z * Z) (ws wi depth : list f64) (ct : list Z)
      (dry gamma theta : f64) :
  length ws = length depth -> length wi = length depth ->
  length depth = length ct ->
  get_weight_at_cell ind ws wi depth ct dry gamma theta =
  Ok (resolve (modulated_weight ind ws wi depth ct dry gamma theta)).
Proof.
  intros Hs Hi Hc. unfold get_weight_at_cell.
  rewrite Hs, Hi, <- Hc, Nat.eqb_refl. reflexivity.
Qed.

(** *** Dry neighbours *)

Lemma mask_all_true (mask : list bool) (v : f64) (w : list f64) :
  length mask = length w -> Forall (fun b => b = true) mask ->
  mask_set mask v w = repeat v (length w).
Proof.
  unfold mask_set. revert w.
  induction mask as [|b t IH]; intros [|x tw] Hlen Hall; simpl in *;
    try reflexivity; try discriminate.
  inversion Hall as [|? ? Hb Ht]; subst.
  rewrite IH by (auto; lia). reflexivity.
Qed.

Lemma resolve_all_zero (n : nat) :
  resolve (repeat (Fin 0) (S n)) = repeat (Fin (1 / INR (S n))) (S n).
Proof.
  set (w := repeat (Fin 0) (S n)).
  assert (Hall : forall x, In x w -> x = Fin 0) by (intros x; apply repeat_spec).
  assert (Hcount : count_valid w = S n).
  { unfold count_valid. rewrite valid_mask_select.
    rewrite forallb_filter_id.
    { unfold w. apply repeat_length. }
    apply forallb_forall. intros x Hx. rewrite (Hall x Hx). reflexivity. }
  rewrite resolve_pointwise, fallback_branch.
  - rewrite uniform_share_pos by (rewrite Hcount; lia).
    rewrite Hcount. unfold w. rewrite map_repeat. reflexivity.
  - intros k Hk _. apply Hall. apply nth_In. exact Hk.
Qed.

(** With every neighbour at or below the dry depth, every direction gets
    the same positive weight, whatever the other arguments are. *)
Lemma all_dry_gives_uniform (ind : Z * Z) (ws wi depth : list f64)
      (ct : list Z) (dry gamma theta : f64) (n : nat) :
  length ws = S n -> length wi = S n -> length depth = S n ->
  length ct = S n ->
  Forall (fun d => fle d dry = true) depth ->
  get_weight_at_cell ind ws wi depth ct dry gamma theta
  = Ok (repeat (Fin (1 / INR (S n))) (S n)).
Proof.
  intros Hs Hi Hd Hc Hdry.
  rewrite shapes_ok by congruence.
  rewrite modulated_blended, mask_all_true.
  - rewrite blended_length by congruence. rewrite Hd.
    rewrite resolve_all_zero. reflexivity.
  - rewrite dry_mask_length, blended_length by congruence. reflexivity.
  - unfold dry_mask. apply Forall_map. exact Hdry.
Qed.

(** C2. With every neighbour depth at or below [dry_depth] the returned
    array is not the all-zero marker: lines 128 and 136 together give each
    of the nine directions the weight [1/9]. *)
Theorem all_dry_returns_uniform_ninth :
  get_weight_at_cell (1, 1)%Z flat_sfc flat_sfc (repeat (Fin 0) 9)
                     (repeat 0%Z 9) (Fin (1 / 10)) (Fin (1 / 2)) (Fin 1)
  = Ok (repeat (Fin (1 / 9)) 9).
Proof.
  rewrite (all_dry_gives_uniform _ _ _ _ _ _ _ _ 8) by
    (try reflexivity;
     repeat (constructor; [simpl; rdecide; reflexivity|]); constructor).
  simpl INR. repeat f_equal; lra.
Qed.

(** C4. A single dry neighbour (entry 0) on a flat stage without
    discharge: line 128 sets its weight to zero, the fallback of line 136
    then hands it the same share as the wet neighbours. *)
Theorem dry_neighbour_gets_weight :
  get_weight_at_cell (1, 1)%Z flat_sfc flat_sfc
                     (Fin 0 :: repeat (Fin 1) 8)
                     (repeat 0%Z 9) (Fin (1 / 10)) (Fin (1 / 2)) (Fin 1)
  = Ok (repeat (Fin (1 / 9)) 9).
Proof.
  unfold flat_sfc. wcompute. reflexivity.
Qed.

Lemma nansum_from (w : list f64) (a : R) :
  Forall nonneg w ->
  fold_left fadd (map (fun x => if isnan x then Fin 0 else x) w) (Fin a)
  = Fin (a + total w).
Proof.
  intros H. revert a. induction H as [|x t Hx Ht IH]; intros a; simpl.
  - f_equal. lra.
  - destruct x; simpl in Hx; try contradiction; simpl;
      rewrite IH; f_equal; lra.
Qed.

Lemma nansum_total (w : list f64) :
  Forall nonneg w -> nansum w = Fin (total w).
Proof.
  intros H. unfold nansum, fsum. rewrite nansum_from by exact H.
  f_equal. lra.
Qed.

Lemma total_nonneg (w : list f64) : Forall nonneg w -> 0 <= total w.
Proof.
  induction 1 as [|x t Hx Ht IH]; simpl; [lra|].
  destruct x; simpl in *; try contradiction; lra.
Qed.

Lemma total_pos (w : list f64) (x : f64) :
  Forall nonneg w -> In x w -> isnan x = false -> fne x (Fin 0) = true ->
  0 < total w.
Proof.
  intros H. induction H as [|y t Hy Ht IH]; intros Hin Hv Hne; [contradiction|].
  pose proof (total_nonneg t Ht) as Hge.
  simpl. destruct Hin as [-> | Hin].
  - destruct x; simpl in *; try contradiction; try discriminate.
    apply negb_true_iff, Reqb_false_iff in Hne. lra.
  - specialize (IH Hin Hv Hne).
    destruct y; simpl in *; try contradiction; lra.
Qed.

Lemma Forall_map2 {A B C : Type} (P : A -> Prop) (Q : B -> Prop)
      (T : C -> Prop) (f : A -> B -> C) (l1 : list A) (l2 : list B) :
  (forall a b, P a -> Q b -> T (f a b)) ->
  Forall P l1 -> Forall Q l2 -> Forall T (map2 f l1 l2).
Proof.
  intros Hf H1. revert l2. induction H1 as [|a t Ha Ht IH]; intros l2 H2.
  - constructor.
  - destruct H2 as [|b t2 Hb Ht2]; simpl; constructor; auto.
Qed.

Lemma nonneg_prefix_set (n : nat) (w : list f64) :
  Forall nonneg w -> Forall nonneg (prefix_set n NaN w).
Proof.
  intros H. revert n. induction H as [|x t Hx Ht IH]; intros [|n]; simpl;
    constructor; simpl; auto.
Qed.

Lemma nonneg_mask_set (mask : list bool) (v : f64) (w : list f64) :
  nonneg v -> Forall nonneg w -> Forall nonneg (mask_set mask v w).
Proof.
  intros Hv Hw. unfold mask_set.
  apply (Forall_map2 (fun _ => True) nonneg); auto.
  - intros [|] x _ Hx; assumption.
  - apply Forall_forall. auto.
Qed.

Lemma nonneg_masked (ind : Z * Z) (w depth : list f64) (ct : list Z)
      (dry : f64) :
  Forall nonneg w -> Forall nonneg (masked ind w depth ct dry).
Proof.
  intros H. unfold masked. apply nonneg_mask_set; [exact I|].
  destruct (fst ind =? 0)%Z; [apply nonneg_prefix_set|]; exact H.
Qed.

Lemma nonneg_normalize (w : list f64) :
  Forall nonneg w -> Forall nonneg (normalize w).
Proof.
  intros H. unfold normalize. rewrite (nansum_total w H).
  unfold fgt, flt. rcase 0 (total w); [|exact H].
  apply Forall_map. eapply Forall_impl; [|exact H].
  intros x Hx. destruct x; simpl in *; try contradiction; auto.
  rewrite Reqb_false by lra. simpl.
  apply Rmult_le_pos; [exact Hx|]. apply Rlt_le, Rinv_0_lt_compat. exact E.
Qed.

Lemma nonneg_scale (g : R) (w : list f64) :
  0 <= g -> Forall nonneg w -> Forall nonneg (map (fmul (Fin g)) w).
Proof.
  intros Hg H. apply Forall_map. eapply Forall_impl; [|exact H].
  intros x Hx. destruct x; simpl in *; try contradiction; auto.
  apply Rmult_le_pos; assumption.
Qed.

Lemma nonneg_add (w1 w2 : list f64) :
  Forall nonneg w1 -> Forall nonneg w2 -> Forall nonneg (map2 fadd w1 w2).
Proof.
  apply Forall_map2. intros [| | |a] [| | |b]; simpl; try tauto. lra.
Qed.

(** The depth factor of a neighbour that is not dry. *)
Lemma fpow_wet (d dd t : R) :
  0 <= dd -> dd < d -> exists p, fpow (Fin d) (Fin t) = Fin p /\ 0 < p.
Proof.
  intros Hdd Hd. unfold fpow, pow_fin.
  rcase t 0; [exists 1; split; [reflexivity | lra]|].
  rcase d 1; [exists 1; split; [reflexivity | lra]|].
  rewrite Rltb_true by lra.
  exists (Rpower d t). split; [reflexivity|]. unfold Rpower. apply exp_pos.
Qed.

Lemma mask_set_map2 {A : Type} (p : A -> bool) (h : A -> f64)
      (f : f64 -> f64 -> f64) (v : f64) (l : list A) (w : list f64) :
  mask_set (map p l) v (map2 f (map h l) w)
  = map2 (fun d x => if p d then v else f (h d) x) l w.
Proof.
  unfold mask_set. revert w. induction l as [|d t IH]; intros [|x tw]; simpl;
    try reflexivity.
  rewrite IH. reflexivity.
Qed.

Lemma nonneg_modulated (ind : Z * Z) (ws wi depth : list f64) (ct : list Z)
      (dry gamma theta : f64) :
  well_formed ws wi depth dry gamma theta ->
  Forall nonneg (modulated_weight ind ws wi depth ct dry gamma theta).
Proof.
  intros [Hs Hi Hd (dd & -> & Hdd) (g & -> & Hg) Ht].
  destruct theta as [| | |t]; try discriminate.
  unfold modulated_weight, dry_mask. rewrite mask_set_map2.
  apply (Forall_map2 (fun d => is_finite d = true) nonneg); [| exact Hd |].
  - intros [| | |d] x Hfin Hx; try discriminate. unfold fle.
    rcase d dd; [simpl; lra|].
    destruct (fpow_wet d dd t Hdd E) as (p & -> & Hp).
    destruct x; simpl in *; try contradiction; auto.
    apply Rmult_le_pos; lra.
  - apply nonneg_add; apply nonneg_scale; try lra;
      apply nonneg_normalize, nonneg_masked; assumption.
Qed.

Lemma select_map {A : Type} (p : A -> bool) (g : A -> f64) (l : list A) :
  select (map p l) (map g l) = map g (filter p l).
Proof.
  induction l as [|x t IH]; simpl; [reflexivity|].
  rewrite IH. destruct (p x); reflexivity.
Qed.

Lemma renormalise_branch (w : list f64) (k : nat) :
  (k < length w)%nat -> isnan (nth k w NaN) = false ->
  fne (nth k w NaN) (Fin 0) = true ->
  existsb (fun x => fne x (Fin 0)) (filter (fun x => negb (isnan x)) w) = true.
Proof.
  intros Hk Hv Hne. apply existsb_exists. exists (nth k w NaN).
  split; [|exact Hne]. apply filter_In.
  split; [apply nth_In; exact Hk | rewrite Hv; reflexivity].
Qed.

(** The renormalised valid entries add up to the whole. *)
Lemma fsum_renormalised (w : list f64) (s a : R) :
  Forall nonneg w -> s <> 0 ->
  fold_left fadd
    (map (fun x => if isnan x then Fin 0 else fdiv x (Fin s))
         (filter (fun x => negb (isnan x)) w))
    (Fin a)
  = Fin (a + total w / s).
Proof.
  intros H Hs. revert a. induction H as [|x t Hx Ht IH]; intros a; simpl.
  - f_equal. field. exact Hs.
  - destruct x; simpl in Hx; try contradiction; simpl.
    + rewrite IH. f_equal. field. exact Hs.
    + rewrite Reqb_false by exact Hs. simpl. rewrite IH. f_equal. field.
      exact Hs.
Qed.

Lemma resolve_renormalised (m : list f64) (k : nat) :
  Forall nonneg m ->
  (k < length m)%nat -> isnan (nth k m NaN) = false ->
  fne (nth k m NaN) (Fin 0) = true ->
  0 < total m /\
  resolve m = map (fun x => if isnan x then Fin 0
                            else fdiv x (Fin (total m))) m.
Proof.
  intros Hnn Hk Hv Hne. split.
  - apply (total_pos m (nth k m NaN)); auto. apply nth_In. exact Hk.
  - rewrite resolve_pointwise, (renormalise_branch m k Hk Hv Hne).
    rewrite (nansum_total m Hnn). reflexivity.
Qed.

Lemma shapes_of_ok (ind : Z * Z) (ws wi depth : list f64) (ct : list Z)
      (dry gamma theta : f64) (w : list f64) :
  get_weight_at_cell ind ws wi depth ct dry gamma theta = Ok w ->
  length wi = length ws /\ length depth = length ws /\
  length ct = length ws.
Proof.
  unfold get_weight_at_cell.
  destruct (_ && _) eqn:E; [|discriminate]. intros _.
  apply andb_true_iff in E. destruct E as (E & E3).
  apply andb_true_iff in E. destruct E as (E1 & E2).
  apply Nat.eqb_eq in E1, E2, E3. auto.
Qed.

(** Line 128: a dry neighbour's entry of the modulated array is zero. *)
Lemma modulated_dry_entry (ind : Z * Z) (ws wi depth : list f64)
      (ct : list Z) (dry gamma theta : f64) (k : nat) :
  length ws = length depth -> length wi = length depth ->
  length depth = length ct ->
  (k < length depth)%nat -> fle (nth k depth NaN) dry = true ->
  nth k (modulated_weight ind ws wi depth ct dry gamma theta) NaN = Fin 0.
Proof.
  intros Hs Hi Hc Hk Hdry. rewrite modulated_blended. unfold mask_set.
  rewrite (map2_nth _ _ _ _ false NaN).
  - unfold dry_mask. rewrite (nth_map_lt _ _ _ NaN) by exact Hk.
    rewrite Hdry. reflexivity.
  - rewrite dry_mask_length, blended_length; congruence.
  - rewrite dry_mask_length. exact Hk.
Qed.

(** Lines 132-134 in terms of the markers left in the array.  On
    well-formed inputs for which some unmarked entry of the modulated
    array is not zero, the entries of the returned array at the unmarked
    positions add up to 1 (in exact arithmetic), and every position that
    holds the NaN marker or belongs to a dry neighbour holds 0. *)
Lemma normalization_invariant (ind : Z * Z) (ws wi depth : list f64)
    (ct : list Z) (dry gamma theta : f64) (m w : list f64) :
  well_formed ws wi depth dry gamma theta ->
  m = modulated_weight ind ws wi depth ct dry gamma theta ->
  get_weight_at_cell ind ws wi depth ct dry gamma theta = Ok w ->
  (exists k, (k < length m)%nat /\ isnan (nth k m NaN) = false /\
             fne (nth k m NaN) (Fin 0) = true) ->
  fsum (select (valid_mask m) w) = Fin 1 /\
  (forall k, (k < length m)%nat -> isnan (nth k m NaN) = true ->
             nth k w NaN = Fin 0) /\
  (forall k, (k < length depth)%nat -> fle (nth k depth NaN) dry = true ->
             nth k w NaN = Fin 0).
Proof.
  intros Hwf Hm Hw (k0 & Hk0 & Hv0 & Hne0).
  destruct (shapes_of_ok _ _ _ _ _ _ _ _ _ Hw) as (Hli & Hld & Hlc).
  apply shapes_agree in Hw. rewrite <- Hm in Hw. subst w.
  assert (Hnn : Forall nonneg m) by (subst m; apply nonneg_modulated; exact Hwf).
  assert (Hlen : length m = length depth)
    by (subst m; apply modulated_length; congruence).
  destruct (resolve_renormalised m k0 Hnn Hk0 Hv0 Hne0) as (Hpos & ->).
  split; [|split].
  - unfold valid_mask. rewrite map_map, select_map. unfold fsum.
    rewrite fsum_renormalised by (auto; lra). f_equal. field. lra.
  - intros k Hk Hnan. rewrite (nth_map_lt _ _ _ NaN NaN) by exact Hk.
    rewrite Hnan. reflexivity.
  - intros k Hk Hdry. rewrite (nth_map_lt _ _ _ NaN NaN) by lia.
    subst m. rewrite modulated_dry_entry by congruence.
    simpl. rewrite Reqb_false by lra. f_equal. field. lra.
Qed.

Lemma downstream_modulated :
  modulated_weight (2, 2)%Z slope_sfc flat_sfc downstream_depth no_walls
                   (Fin (1 / 10)) (Fin (1 / 2)) (Fin 1)
  = [Fin 0; Fin 0; Fin 0; Fin 0; Fin 0; Fin 0;
     Fin (1 / 8); Fin (1 / 4); Fin (1 / 8)].
Proof.
  unfold slope_sfc, flat_sfc, downstream_depth, no_walls. wcompute.
  repeat (f_equal; try lra).
Qed.

Lemma downstream_well_formed :
  well_formed slope_sfc flat_sfc downstream_depth
              (Fin (1 / 10)) (Fin (1 / 2)) (Fin 1).
Proof.
  constructor.
  - unfold slope_sfc. repeat (constructor; [simpl; lra|]). constructor.
  - unfold flat_sfc. simpl. repeat (constructor; [simpl; lra|]). constructor.
  - unfold downstream_depth. repeat (constructor; [reflexivity|]). constructor.
  - exists (1 / 10). split; [reflexivity | lra].
  - exists (1 / 2). split; [reflexivity | lra].
  - reflexivity.
Defined.

Lemma normalization_invariant_witness :
  let m := [Fin 0; Fin 0; Fin 0; Fin 0; Fin 0; Fin 0;
            Fin (1 / 8); Fin (1 / 4); Fin (1 / 8)] in
  fsum (select (valid_mask m) (resolve m)) = Fin 1 /\
  (forall k, (k < length m)%nat -> isnan (nth k m NaN) = true ->
             nth k (resolve m) NaN = Fin 0) /\
  (forall k, (k < length downstream_depth)%nat ->
             fle (nth k downstream_depth NaN) (Fin (1 / 10)) = true ->
             nth k (resolve m) NaN = Fin 0).
Proof.
  intros m.
  apply (normalization_invariant (2, 2)%Z slope_sfc flat_sfc downstream_depth
           no_walls (Fin (1 / 10)) (Fin (1 / 2)) (Fin 1) m (resolve m)).
  - exact downstream_well_formed.
  - symmetry. exact downstream_modulated.
  - unfold get_weight_at_cell. simpl.
    rewrite downstream_modulated. reflexivity.
  - exists 7%nat. split; [simpl; lia | split; [reflexivity|]].
    simpl. rewrite Reqb_false by lra. reflexivity.
Defined.

(** The same call, evaluated: weight only on the three wet entries. *)
Example downstream_weights :
  get_weight_at_cell (2, 2)%Z slope_sfc flat_sfc downstream_depth no_walls
                     (Fin (1 / 10)) (Fin (1 / 2)) (Fin 1)
  = Ok [Fin 0; Fin 0; Fin 0; Fin 0; Fin 0; Fin 0;
        Fin (1 / 4); Fin (1 / 2); Fin (1 / 4)].
Proof.
  unfold get_weight_at_cell. simpl length. simpl Nat.eqb. cbn [andb].
  rewrite downstream_modulated. wcompute.
  repeat (f_equal; try lra).
Qed.

Lemma floored_quotient (num d : R) :
  fmax (Fin 0) (fdiv (Fin num) (Fin d)) =
  if Reqb d 0 then floored_zero_divide num else Fin (Rmax 0 (num / d)).
Proof.
  unfold fdiv, floored_zero_divide. rcase d 0.
  - rcase num 0; [reflexivity|]. rcase 0 num; reflexivity.
  - unfold fmax, fle. rcase 0 (num / d).
    + rewrite Rmax_right by exact E0. reflexivity.
    + rewrite Rmax_left by lra. reflexivity.
Qed.

(** Lengths of arrays built by element-wise operations. *)
Ltac lens := repeat first [rewrite map2_length | rewrite length_map]; lia.

(** C5, as the code has it.  On finite inputs every entry with a non-zero
    distance is the quotient floored at zero.  There is no guard: an entry
    with distance zero is divided all the same and comes out as NaN
    (numerator zero), as positive infinity (numerator positive) or as 0
    (numerator negative). *)
Theorem weight_sfc_int_entries (stage qx qy : R) (sn iv jv ds : list R)
    (k : nat) :
  length sn = length ds -> length iv = length ds -> length jv = length ds ->
  (k < length ds)%nat ->
  exists sfc int,
    get_weight_sfc_int (Fin stage) (map Fin sn) (Fin qx) (Fin qy)
                       (map Fin iv) (map Fin jv) (map Fin ds)
    = Ok (sfc, int) /\
    length sfc = length ds /\ length int = length ds /\
    let d := nth k ds 0 in
    let num_sfc := stage - nth k sn 0 in
    let num_int := qx * nth k jv 0 + qy * nth k iv 0 in
    (d <> 0 ->
       nth k sfc NaN = Fin (Rmax 0 (num_sfc / d)) /\
       nth k int NaN = Fin (Rmax 0 (num_int / d))) /\
    (d = 0 ->
       nth k sfc NaN = floored_zero_divide num_sfc /\
       nth k int NaN = floored_zero_divide num_int).
Proof.
  intros Hs Hi Hj Hk. unfold get_weight_sfc_int.
  rewrite !length_map, Hs, Hi, Hj, Nat.eqb_refl. cbn [andb].
  eexists. eexists. split; [reflexivity|].
  assert (Hsfc : nth k (map (fmax (Fin 0))
                   (map2 fdiv (map (fsub (Fin stage)) (map Fin sn))
                         (map Fin ds))) NaN
                 = fmax (Fin 0) (fdiv (Fin (stage - nth k sn 0))
                                      (Fin (nth k ds 0)))).
  { rewrite (nth_map_lt _ _ _ NaN NaN)
      by lens.
    rewrite (map2_nth _ _ _ _ NaN NaN) by lens.
    rewrite map_map.
    rewrite (nth_map_lt _ _ _ 0 NaN) by lia.
    rewrite (nth_map_lt _ _ _ 0 NaN) by lia. reflexivity. }
  assert (Hint : nth k (map (fmax (Fin 0))
                   (map2 fdiv
                      (map2 fadd (map (fmul (Fin qx)) (map Fin jv))
                                 (map (fmul (Fin qy)) (map Fin iv)))
                      (map Fin ds))) NaN
                 = fmax (Fin 0)
                     (fdiv (Fin (qx * nth k jv 0 + qy * nth k iv 0))
                           (Fin (nth k ds 0)))).
  { rewrite (nth_map_lt _ _ _ NaN NaN)
      by lens.
    rewrite (map2_nth _ _ _ _ NaN NaN)
      by lens.
    rewrite (map2_nth _ _ _ _ NaN NaN) by lens.
    rewrite !map_map.
    rewrite (nth_map_lt _ _ _ 0 NaN) by lia.
    rewrite (nth_map_lt _ _ _ 0 NaN) by lia.
    rewrite (nth_map_lt _ _ _ 0 NaN) by lia. reflexivity. }
  split; [|split].
  - lens.
  - lens.
  - cbv zeta. rewrite Hsfc, Hint, !floored_quotient. split.
    + intros Hd. rewrite Reqb_false by exact Hd. split; reflexivity.
    + intros Hd. rewrite Reqb_true by exact Hd. split; reflexivity.
Qed.

Lemma weight_sfc_int_entries_witness :
  exists sfc int,
    get_weight_sfc_int (Fin 1) (map Fin nbr_stage) (Fin 0) (Fin 1)
                       (map Fin offsets_i) (map Fin offsets_j)
                       (map Fin distances_r)
    = Ok (sfc, int) /\
    length sfc = length distances_r /\ length int = length distances_r /\
    let d := nth 7 distances_r 0 in
    let num_sfc := 1 - nth 7 nbr_stage 0 in
    let num_int := 0 * nth 7 offsets_j 0 + 1 * nth 7 offsets_i 0 in
    (d <> 0 ->
       nth 7 sfc NaN = Fin (Rmax 0 (num_sfc / d)) /\
       nth 7 int NaN = Fin (Rmax 0 (num_int / d))) /\
    (d = 0 ->
       nth 7 sfc NaN = floored_zero_divide num_sfc /\
       nth 7 int NaN = floored_zero_divide num_int).
Proof.
  apply (weight_sfc_int_entries 1 0 1 nbr_stage offsets_i offsets_j
           distances_r 7); simpl; first [reflexivity | lia].
Defined.

(** C5, the guard.  Called with the self direction at distance 0, the
    function divides by that zero: the self entry of both surfaces is the
    NaN of [0 / 0], not a value chosen by a guard. *)
Lemma self_direction_division_unguarded :
  exists sfc int,
    get_weight_sfc_int (Fin 1) (map Fin nbr_stage) (Fin 0) (Fin 1)
                       (map Fin offsets_i) (map Fin offsets_j)
                       (map Fin distances_r)
    = Ok (sfc, int) /\
    nth_error sfc 4 = Some NaN /\ nth_error int 4 = Some NaN.
Proof.
  eexists. eexists. split; [reflexivity|].
  cbn. rdecide. split; reflexivity.
Qed.

(** With a lower cell at distance 0 the entry is an infinity. *)
Example zero_distance_gives_infinity :
  get_weight_sfc_int (Fin 1) [Fin 0] (Fin 0) (Fin 0) [Fin 0] [Fin 0] [Fin 0]
  = Ok ([PInf], [NaN]).
Proof. wcompute. reflexivity. Qed.

End WeightsProps.

(* ===================================================================== *)
(** ** Weighted sampler *)
(* ===================================================================== *)

Module SamplerProps.

Import Float FloatFacts Sampler.
Open Scope R_scope.

(** *** Cumulative sums of finite weights *)

Lemma cumsum_from_Fin (a : R) (ps : list R) :
  cumsum_from (Fin a) (map Fin ps) = map Fin (Rcumsum_from a ps).
Proof.
  revert a. induction ps as [|p t IH]; intros a; simpl; [reflexivity|].
  rewrite IH. reflexivity.
Qed.

Lemma cumsum_Fin (ps : list R) : cumsum (map Fin ps) = map Fin (Rcumsum ps).
Proof.
  destruct ps as [|p t]; simpl; [reflexivity|].
  rewrite cumsum_from_Fin. reflexivity.
Qed.

Lemma Rcumsum_from_length (a : R) (ps : list R) :
  length (Rcumsum_from a ps) = length ps.
Proof.
  revert a. induction ps as [|p t IH]; intros a; simpl; [reflexivity|].
  rewrite IH. reflexivity.
Qed.

Lemma Rcumsum_length (ps : list R) : length (Rcumsum ps) = length ps.
Proof.
  destruct ps as [|p t]; simpl; [reflexivity|].
  rewrite Rcumsum_from_length. reflexivity.
Qed.

Lemma partial_sum_cons (p : R) (t : list R) (k : nat) :
  partial_sum (p :: t) (S k) = p + partial_sum t k.
Proof. reflexivity. Qed.

Lemma Rcumsum_from_nth (a : R) (ps : list R) (k : nat) :
  (k < length ps)%nat ->
  nth k (Rcumsum_from a ps) 0 = a + partial_sum ps k.
Proof.
  revert a k. induction ps as [|p t IH]; intros a k Hk; simpl in Hk; [lia|].
  destruct k as [|k].
  - unfold partial_sum. simpl. lra.
  - simpl nth. rewrite IH by lia. rewrite partial_sum_cons. lra.
Qed.

Lemma Rcumsum_nth (ps : list R) (k : nat) :
  (k < length ps)%nat -> nth k (Rcumsum ps) 0 = partial_sum ps k.
Proof.
  destruct ps as [|p t]; simpl; intros Hk; [lia|].
  destruct k as [|k].
  - unfold partial_sum. simpl. lra.
  - rewrite Rcumsum_from_nth by lia. rewrite partial_sum_cons. reflexivity.
Qed.

Lemma partial_sum_nonneg (ps : list R) (k : nat) :
  Forall (fun p => 0 <= p) ps -> 0 <= partial_sum ps k.
Proof.
  intros H. revert k. induction H as [|p t Hp Ht IH]; intros k.
  - unfold partial_sum. simpl. lra.
  - destruct k as [|k].
    + unfold partial_sum. simpl. lra.
    + rewrite partial_sum_cons. specialize (IH k). lra.
Qed.

Lemma partial_sum_mono (ps : list R) (i j : nat) :
  Forall (fun p => 0 <= p) ps -> (i <= j)%nat ->
  partial_sum ps i <= partial_sum ps j.
Proof.
  intros H. revert i j. induction H as [|p t Hp Ht IH]; intros i j Hij.
  - unfold partial_sum. simpl. lra.
  - destruct i as [|i], j as [|j]; try lia.
    + lra.
    + rewrite partial_sum_cons.
      pose proof (partial_sum_nonneg t j Ht).
      unfold partial_sum at 1. simpl. lra.
    + rewrite !partial_sum_cons. specialize (IH i j ltac:(lia)). lra.
Qed.

Lemma partial_sum_all (ps : list R) (k : nat) :
  (length ps <= S k)%nat -> partial_sum ps k = Rsum ps.
Proof.
  intros H. unfold partial_sum. rewrite firstn_all2 by exact H. reflexivity.
Qed.

(** *** The binary search on a sorted array *)

(** The loop keeps everything to the left of [lo] below the key and
    everything from [hi] on at or above it. *)
Lemma searchsorted_loop_spec (cs : list R) (u : R) (lo hi : nat) :
  sorted cs ->
  (lo <= hi)%nat -> (hi <= length cs)%nat ->
  (forall j, (j < lo)%nat -> nth j cs 0 < u) ->
  (forall j, (hi <= j)%nat -> (j < length cs)%nat -> u <= nth j cs 0) ->
  let r := searchsorted_loop (map Fin cs) (Fin u) lo hi in
  (r <= length cs)%nat /\
  (forall j, (j < r)%nat -> nth j cs 0 < u) /\
  (forall j, (r <= j)%nat -> (j < length cs)%nat -> u <= nth j cs 0).
Proof.
  intros Hsorted. remember (hi - lo)%nat as d eqn:Hd. revert lo hi Hd.
  induction d as [d IH] using lt_wf_ind.
  intros lo hi Hd Hle Hhi Hbelow Habove. cbv zeta.
  simp searchsorted_loop.
  destruct (lt_dec lo hi) as [Hlt | Hnlt]; simpl.
  - change (fst (Nat.divmod (lo + hi) 1 0 1)) with ((lo + hi) / 2)%nat.
    assert (Hmid : (lo <= (lo + hi) / 2 < hi)%nat).
    { pose proof (Nat.div_mod_eq (lo + hi) 2).
      pose proof (Nat.mod_upper_bound (lo + hi) 2 ltac:(lia)). lia. }
    remember ((lo + hi) / 2)%nat as mid eqn:Hmid_def.
    rewrite (nth_map_lt _ _ _ 0 NaN) by lia. simpl flt.
    destruct (Rltb (nth mid cs 0) u) eqn:Hcmp;
      cbn [searchsorted_loop_unfold_clause_1_clause_1];
      rewrite <- ?Hmid_def.
    + (* a[mid] < v: continue to the right of mid *)
      apply Rltb_spec in Hcmp.
      apply (IH (hi - S mid)%nat ltac:(lia) (S mid) hi eq_refl);
        [lia | lia | | exact Habove].
      intros j Hj.
      apply Rle_lt_trans with (nth mid cs 0); [|exact Hcmp].
      apply Hsorted; lia.
    + (* a[mid] >= v: continue to the left of mid *)
      apply Rltb_false_iff in Hcmp.
      apply (IH (mid - lo)%nat ltac:(lia) lo mid eq_refl);
        [lia | lia | exact Hbelow |].
      intros j Hj Hjn.
      apply Rle_trans with (nth mid cs 0); [exact Hcmp|].
      apply Hsorted; lia.
  - (* the interval is empty *)
    assert (lo = hi) by lia. subst hi.
    split; [lia | split; auto].
Qed.

Lemma searchsorted_spec (cs : list R) (u : R) :
  sorted cs ->
  let r := searchsorted (map Fin cs) (Fin u) in
  (r <= length cs)%nat /\
  (forall j, (j < r)%nat -> nth j cs 0 < u) /\
  (forall j, (r <= j)%nat -> (j < length cs)%nat -> u <= nth j cs 0).
Proof.
  intros Hs. unfold searchsorted. rewrite length_map.
  apply (searchsorted_loop_spec cs u); auto; intros; lia.
Qed.

Lemma Rcumsum_sorted (ps : list R) :
  Forall (fun p => 0 <= p) ps -> sorted (Rcumsum ps).
Proof.
  intros H i j Hij Hj. rewrite Rcumsum_length in Hj.
  rewrite !Rcumsum_nth by lia. apply partial_sum_mono; assumption.
Qed.

(** On non-negative weights the search lands on the smallest index whose
    cumulative sum reaches the key, or on the length if there is none. *)
Lemma searchsorted_cumsum (ps : list R) (u : R) :
  Forall (fun p => 0 <= p) ps ->
  let r := searchsorted (cumsum (map Fin ps)) (Fin u) in
  (r <= length ps)%nat /\
  (forall j, (j < r)%nat -> partial_sum ps j < u) /\
  (forall j, (r <= j)%nat -> (j < length ps)%nat -> u <= partial_sum ps j).
Proof.
  intros H. rewrite cumsum_Fin.
  destruct (searchsorted_spec (Rcumsum ps) u (Rcumsum_sorted ps H))
    as (Hr & Hlt & Hge).
  rewrite Rcumsum_length in *. cbv zeta.
  split; [exact Hr | split].
  - intros j Hj. rewrite <- Rcumsum_nth by lia. apply Hlt. exact Hj.
  - intros j Hj Hjn. rewrite <- Rcumsum_nth by lia. apply Hge; assumption.
Qed.

Lemma getitem_arange (n r : nat) :
  (r < n)%nat -> Steps.getitem (arange n) (Z.of_nat r) = Ok (Z.of_nat r).
Proof.
  intros Hr. unfold Steps.getitem, arange.
  rewrite length_map, length_seq.
  replace (Z.of_nat r <? 0)%Z with false by (symmetry; apply Z.ltb_ge; lia).
  replace (0 <=? Z.of_nat r)%Z with true by (symmetry; apply Z.leb_le; lia).
  replace (Z.of_nat r <? Z.of_nat n)%Z with true
    by (symmetry; apply Z.ltb_lt; lia).
  cbn [andb]. rewrite Nat2Z.id.
  rewrite nth_error_map, nth_error_seq.
  replace (r <? n)%nat with true by (symmetry; apply Nat.ltb_lt; lia).
  reflexivity.
Qed.

Lemma getitem_arange_end (n : nat) :
  Steps.getitem (arange n) (Z.of_nat n) = Raise UncheckedRead.
Proof.
  unfold Steps.getitem, arange. rewrite length_map, length_seq.
  replace (Z.of_nat n <? 0)%Z with false by (symmetry; apply Z.ltb_ge; lia).
  rewrite Z.ltb_irrefl, andb_false_r. reflexivity.
Qed.

Section RandomStream.

(** Any generator whose draws lie in [0, 1). *)
Variable rng : Type.
Variable uniform01 : rng -> R * rng.
Hypothesis uniform01_range : forall s, 0 <= fst (uniform01 s) < 1.

(** Every call draws once: the state after the call is the state after
    one [uniform01], whatever the weights. *)
Lemma random_pick_one_draw (prob : list f64) (s : rng) :
  snd (random_pick uniform01 prob s) = snd (uniform01 s).
Proof.
  unfold random_pick, get_random_uniform.
  destruct (uniform01 s) as [u s']. reflexivity.
Qed.

Lemma random_pick_unfold (ps : list R) (s : rng) :
  random_pick uniform01 (map Fin ps) s =
  (Steps.getitem (arange (length ps))
     (Z.of_nat (searchsorted (cumsum (map Fin ps)) (Fin (fst (uniform01 s))))),
   snd (uniform01 s)).
Proof.
  unfold random_pick, get_random_uniform. rewrite length_map.
  destruct (uniform01 s) as [u s']. reflexivity.
Qed.

(** C6. A call of [random_pick] on non-negative weights takes one draw [u]
    from the stream, leaving the stream one draw further, and returns the
    smallest index [i] whose cumulative sum
    [prob[0] + ... + prob[i]], taken in the order of the array, is at
    least [u]. *)
Theorem random_pick_smallest_index (ps : list R) (s : rng) (i : nat) :
  Forall (fun p => 0 <= p) ps ->
  (i < length ps)%nat ->
  fst (uniform01 s) <= partial_sum ps i ->
  (forall j, (j < i)%nat -> partial_sum ps j < fst (uniform01 s)) ->
  random_pick uniform01 (map Fin ps) s = (Ok (Z.of_nat i), snd (uniform01 s)).
Proof.
  intros Hnn Hi Hreach Hfirst. rewrite random_pick_unfold.
  destruct (searchsorted_cumsum ps (fst (uniform01 s)) Hnn) as (Hr & Hlt & Hge).
  set (r := searchsorted _ _) in *.
  assert (Hri : r = i).
  { destruct (Nat.lt_trichotomy r i) as [Hc | [Hc | Hc]]; [|exact Hc|].
    - specialize (Hfirst r Hc). specialize (Hge r (Nat.le_refl r) ltac:(lia)).
      lra.
    - specialize (Hlt i Hc). lra. }
  rewrite Hri, getitem_arange by exact Hi. reflexivity.
Qed.

(** C10. For nine non-negative weights that sum to at least 1 the search
    ends at an index of at most 8, so the subscript into [arr] is in range
    and [random_pick] returns an index in [0, 9). *)
Theorem random_pick_in_bounds (ps : list R) (s : rng) :
  length ps = 9%nat ->
  Forall (fun p => 0 <= p) ps ->
  1 <= Rsum ps ->
  exists r : nat,
    searchsorted (cumsum (map Fin ps)) (Fin (fst (uniform01 s))) = r /\
    (r <= 8)%nat /\
    random_pick uniform01 (map Fin ps) s = (Ok (Z.of_nat r), snd (uniform01 s)).
Proof.
  intros Hlen Hnn Hsum. rewrite random_pick_unfold.
  destruct (searchsorted_cumsum ps (fst (uniform01 s)) Hnn) as (Hr & Hlt & _).
  set (r := searchsorted _ _) in *.
  exists r. split; [reflexivity|].
  assert (Hr8 : (r <= 8)%nat).
  { destruct (le_lt_dec r 8) as [Hc | Hc]; [exact Hc|].
    specialize (Hlt 8%nat Hc).
    rewrite partial_sum_all in Hlt by lia.
    pose proof (uniform01_range s). lra. }
  split; [exact Hr8|].
  rewrite getitem_arange by lia. reflexivity.
Qed.

(** Without enough weight the subscript falls off the end of [arr]. *)
Lemma random_pick_past_end (ps : list R) (s : rng) :
  Forall (fun p => 0 <= p) ps ->
  Rsum ps < fst (uniform01 s) ->
  fst (random_pick uniform01 (map Fin ps) s) = Raise UncheckedRead.
Proof.
  intros Hnn Hu. rewrite random_pick_unfold. cbn [fst].
  destruct (searchsorted_cumsum ps (fst (uniform01 s)) Hnn) as (Hr & _ & Hge).
  set (r := searchsorted _ _) in *.
  assert (Hrn : r = length ps).
  { destruct (le_lt_dec (length ps) r) as [Hc | Hc]; [lia|].
    specialize (Hge (length ps - 1)%nat ltac:(lia) ltac:(lia)).
    rewrite partial_sum_all in Hge by lia. lra. }
  rewrite Hrn. apply getitem_arange_end.
Qed.

End RandomStream.

Lemma cycle_stream_range (n : nat) : 0 <= fst (cycle_stream n) < 1.
Proof.
  unfold cycle_stream. cbn [fst].
  pose proof (Nat.mod_upper_bound n 4 ltac:(lia)) as Hlt.
  pose proof (pos_INR (n mod 4)) as H0.
  apply lt_INR in Hlt.
  replace (INR 4) with 4 in Hlt by (simpl; lra). lra.
Qed.

Lemma half_half_nonneg : Forall (fun p => 0 <= p) half_half.
Proof.
  unfold half_half. repeat (constructor; [lra|]). constructor.
Defined.

Lemma random_pick_smallest_index_witness :
  random_pick cycle_stream (map Fin half_half) 3%nat = (Ok 1%Z, 4%nat).
Proof.
  apply (random_pick_smallest_index nat cycle_stream half_half 3%nat 1%nat).
  - exact half_half_nonneg.
  - simpl. lia.
  - unfold partial_sum, half_half. simpl. lra.
  - intros j Hj. assert (j = 0%nat) by lia. subst j.
    unfold partial_sum, half_half. simpl. lra.
Defined.

Lemma random_pick_in_bounds_witness :
  exists r : nat,
    searchsorted (cumsum (map Fin half_half))
                 (Fin (fst (cycle_stream 3%nat))) = r /\
    (r <= 8)%nat /\
    random_pick cycle_stream (map Fin half_half) 3%nat
    = (Ok (Z.of_nat r), snd (cycle_stream 3%nat)).
Proof.
  apply (random_pick_in_bounds nat cycle_stream cycle_stream_range
           half_half 3%nat).
  - reflexivity.
  - exact half_half_nonneg.
  - unfold Rsum, half_half. simpl. lra.
Defined.

End SamplerProps.

(* ===================================================================== *)
(** ** Index transform: the bijection and the edges of the checks *)
(* ===================================================================== *)

Module IndexTransformExtra.

Import Int64 Int64Facts IndexTransform IndexTransformProps.
Open Scope Z_scope.

Lemma in_range_of_shape (z m n : Z) :
  valid_shape (m, n) -> 0 <= z <= m * n -> in_range z.
Proof.
  intros (Hm & Hn & Hmn) Hz; simpl in *.
  unfold in_range, min_int, max_int in *. lia.
Qed.

Lemma unravel_exact (i m n : Z) :
  valid_shape (m, n) -> 0 < n -> in_range i -> i <= m * n ->
  custom_unravel i (m, n) = Ok (i / n, i mod n).
Proof.
  intros Hs Hn Hi Hle. pose proof Hs as (Hm & _ & Hmn); simpl in *.
  unfold custom_unravel; simpl. unfold mul. rewrite (Z.mul_comm n m).
  rewrite wrap64_id by (apply (in_range_of_shape _ m n Hs); nia).
  rewrite gtb_false by lia.
  unfold floordiv, pymod.
  replace (n =? 0) with false by (symmetry; apply Z.eqb_neq; lia).
  cbn [bind]. rewrite wrap64_id; [reflexivity|].
  unfold in_range, min_int, max_int in *.
  destruct (Z_lt_le_dec i 0) as [Hneg | Hpos].
  - assert (i <= i / n) by (apply Z.div_le_lower_bound; nia).
    assert (i / n < 0) by (apply Z.div_lt_upper_bound; lia).
    lia.
  - pose proof (Z.div_pos i n Hpos Hn).
    assert (i / n <= i) by (apply Z.div_le_upper_bound; nia).
    lia.
Qed.

(** X1. Every flat index of the grid unravels to a coordinate pair inside
    the grid, and ravelling that pair gives the index back. *)
Theorem unravel_in_grid_and_back (i m n : Z) :
  valid_shape (m, n) -> 0 <= i < m * n ->
  exists row col,
    custom_unravel i (m, n) = Ok (row, col) /\
    in_grid (row, col) (m, n) /\
    custom_ravel (row, col) (m, n) = Ok i.
Proof.
  intros Hs Hi. pose proof Hs as (Hm & Hn & Hmn); simpl in *.
  assert (Hn0 : 0 < n) by nia.
  exists (i / n), (i mod n).
  pose proof (Z.div_pos i n ltac:(lia) Hn0) as Hq0.
  pose proof (Z.div_lt_upper_bound i n m Hn0 ltac:(lia)) as Hq1.
  pose proof (Z.mod_pos_bound i n Hn0) as Hr.
  assert (Hg : in_grid (i / n, i mod n) (m, n))
    by (unfold in_grid; simpl; lia).
  split; [|split; [exact Hg|]].
  - apply unravel_exact; auto; try lia.
    apply (in_range_of_shape _ m n Hs). lia.
  - rewrite (ravel_exact _ _ _ _ Hs Hg). f_equal.
    rewrite (Z.div_mod i n) at 3 by lia. lia.
Qed.

Lemma unravel_in_grid_and_back_witness :
  exists row col,
    custom_unravel 27 (5, 7) = Ok (row, col) /\
    in_grid (row, col) (5, 7) /\
    custom_ravel (row, col) (5, 7) = Ok 27.
Proof.
  apply (unravel_in_grid_and_back 27 5 7).
  - unfold valid_shape, max_int; simpl; lia.
  - lia.
Defined.

(** X2. On the grid [custom_ravel] is injective and lands in
    [0, shape[0] * shape[1]): two cells never share a flat index. *)
Theorem ravel_injective_in_range (p q : Z * Z) (m n f : Z) :
  valid_shape (m, n) -> in_grid p (m, n) -> in_grid q (m, n) ->
  custom_ravel p (m, n) = Ok f -> custom_ravel q (m, n) = Ok f ->
  p = q /\ 0 <= f < m * n.
Proof.
  intros Hs Hp Hq Hfp Hfq. destruct p as [r1 c1], q as [r2 c2].
  rewrite (ravel_exact _ _ _ _ Hs Hp) in Hfp.
  rewrite (ravel_exact _ _ _ _ Hs Hq) in Hfq.
  injection Hfp as Hfp. injection Hfq as Hfq.
  destruct Hp as ((Hr1 & Hr1') & (Hc1 & Hc1')).
  destruct Hq as ((Hr2 & Hr2') & (Hc2 & Hc2')). simpl in *.
  assert (Hrow : r1 = r2).
  { transitivity (f / n).
    - apply (Z.div_unique_pos f n r1 c1); lia.
    - symmetry. apply (Z.div_unique_pos f n r2 c2); lia. }
  subst r2. split; [f_equal; lia | nia].
Qed.

Lemma ravel_injective_in_range_witness :
  (3, 6) = (3, 6) /\ 0 <= 27 < 5 * 7.
Proof.
  apply (ravel_injective_in_range (3, 6) (3, 6) 5 7 27).
  - unfold valid_shape, max_int; simpl; lia.
  - unfold in_grid; simpl; lia.
  - unfold in_grid; simpl; lia.
  - reflexivity.
  - reflexivity.
Defined.

(** X3. On a grid with at least one column [custom_unravel] raises the
    [IndexError] exactly for the indices strictly above the number of
    cells; every other index, the number of cells itself and the negative
    ones included, comes back as a pair. *)
Theorem unravel_raises_iff (i m n : Z) :
  valid_shape (m, n) -> 0 < n -> in_range i ->
  (m * n < i -> custom_unravel i (m, n) = Raise IndexError) /\
  (i <= m * n -> custom_unravel i (m, n) = Ok (i / n, i mod n)).
Proof.
  intros Hs Hn Hi. split.
  - apply custom_unravel_rejects. exact Hs.
  - apply unravel_exact; assumption.
Qed.

Lemma unravel_raises_iff_witness :
  (2 * 3 < 7 -> custom_unravel 7 (2, 3) = Raise IndexError) /\
  (7 <= 2 * 3 -> custom_unravel 7 (2, 3) = Ok (7 / 3, 7 mod 3)).
Proof.
  apply (unravel_raises_iff 7 2 3).
  - unfold valid_shape, max_int; simpl; lia.
  - lia.
  - unfold in_range, min_int, max_int; lia.
Defined.

(** X4. The first index past the end of any grid is accepted: for every
    shape with at least one column [custom_unravel] maps
    [shape[0] * shape[1]] to the pair [(shape[0], 0)], which lies outside
    the grid. *)
Theorem unravel_accepts_cell_count (m n : Z) :
  valid_shape (m, n) -> 0 < n ->
  custom_unravel (m * n) (m, n) = Ok (m, 0) /\ ~ in_grid (m, 0) (m, n).
Proof.
  intros Hs Hn. pose proof Hs as (Hm & _ & Hmn); simpl in *. split.
  - rewrite unravel_exact; auto; try lia.
    + rewrite Z.div_mul, Z.mod_mul by lia. reflexivity.
    + apply (in_range_of_shape _ m n Hs). nia.
  - unfold in_grid; simpl. lia.
Qed.

Lemma unravel_accepts_cell_count_witness :
  custom_unravel (5 * 7) (5, 7) = Ok (5, 0) /\ ~ in_grid (5, 0) (5, 7).
Proof.
  apply (unravel_accepts_cell_count 5 7).
  - unfold valid_shape, max_int; simpl; lia.
  - lia.
Defined.

(** X5. A column index equal to the number of columns is accepted by
    [custom_ravel] and aliases the first cell of the next row. *)
Theorem ravel_column_overflow_aliases (row m n : Z) :
  valid_shape (m, n) -> 0 <= row < m ->
  custom_ravel (row, n) (m, n) = Ok ((row + 1) * n) /\
  custom_ravel (row + 1, 0) (m, n) = Ok ((row + 1) * n).
Proof.
  intros Hs Hrow. pose proof Hs as (Hm & Hn & Hmn); simpl in *.
  assert (Hb : in_range ((row + 1) * n))
    by (apply (in_range_of_shape _ m n Hs); nia).
  assert (Hb' : in_range (row * n))
    by (apply (in_range_of_shape _ m n Hs); nia).
  unfold custom_ravel; simpl. unfold add, mul.
  rewrite !gtb_false by lia. cbn [orb].
  rewrite (wrap64_id (row * n)) by exact Hb'.
  rewrite (wrap64_id ((row + 1) * n)) by exact Hb.
  replace (row * n + n) with ((row + 1) * n) by ring.
  rewrite Z.add_0_r, wrap64_id by exact Hb. split; reflexivity.
Qed.

Lemma ravel_column_overflow_aliases_witness :
  custom_ravel (3, 7) (5, 7) = Ok ((3 + 1) * 7) /\
  custom_ravel (3 + 1, 0) (5, 7) = Ok ((3 + 1) * 7).
Proof.
  apply (ravel_column_overflow_aliases 3 5 7).
  - unfold valid_shape, max_int; simpl; lia.
  - lia.
Defined.

(** X6. On a shape without columns [custom_unravel] never returns: an
    index above zero raises the [IndexError], any other index reaches the
    division and raises [ZeroDivisionError]. *)
Theorem unravel_zero_columns (i m : Z) :
  0 <= m ->
  custom_unravel i (m, 0) =
  if i >? 0 then Raise IndexError else Raise ZeroDivisionError.
Proof.
  intros Hm. unfold custom_unravel; simpl. unfold mul. rewrite Z.mul_0_l.
  change (wrap64 0) with 0.
  destruct (i >? 0); reflexivity.
Qed.

Lemma unravel_zero_columns_witness :
  custom_unravel 0 (3, 0) =
  if 0 >? 0 then Raise IndexError else Raise ZeroDivisionError.
Proof. apply (unravel_zero_columns 0 3). lia. Defined.

End IndexTransformExtra.

(* ===================================================================== *)
(** ** Step resolver: arbitrary tables and subscripts *)
(* ===================================================================== *)

Module StepsExtra.

Import Int64 Int64Facts Float FloatFacts Steps Vocabulary.
Open Scope R_scope.

Lemma getitem_In {A : Type} (a : list A) (i : Z) (x : A) :
  getitem a i = Ok x -> In x a.
Proof.
  unfold getitem. destruct (_ && _); [|discriminate].
  destruct (nth_error a _) eqn:E; [|discriminate].
  intros H. injection H as <-. eapply nth_error_In. exact E.
Qed.

Lemma take_spec {A : Type} (a : list A) (idx : list Z) (xs : list A) :
  take a idx = Ok xs ->
  length xs = length idx /\ Forall (fun x => In x a) xs.
Proof.
  revert xs. induction idx as [|i rest IH]; intros xs H; simpl in H.
  - injection H as <-. split; [reflexivity | constructor].
  - destruct (getitem a i) eqn:Ei; simpl in H; [|discriminate].
    destruct (take a rest) eqn:Er; simpl in H; [|discriminate].
    injection H as <-. destruct (IH _ eq_refl) as (Hl & Hall).
    split; [simpl; congruence|].
    constructor; [eapply getitem_In; exact Ei | exact Hall].
Qed.

Lemma squares_exact (i j : Z) :
  small i -> small j ->
  add (mul i i) (mul j j) = (i * i + j * j)%Z /\ (0 <= i * i + j * j)%Z.
Proof.
  unfold small, add, mul. intros Hi Hj.
  assert (0 <= i * i < 2 ^ 62)%Z by nia.
  assert (0 <= j * j < 2 ^ 62)%Z by nia.
  rewrite (wrap64_id (i * i)), (wrap64_id (j * j)), wrap64_id;
    unfold in_range, min_int, max_int; lia.
Qed.

Lemma step_entry (i j : Z) :
  small i -> small j ->
  let d := fsqrt (of_Z (add (mul i i) (mul j j))) in
  d = Fin (sqrt (IZR (i * i + j * j))) /\
  fne d (Fin 0) = negb ((i =? 0)%Z && (j =? 0)%Z).
Proof.
  intros Hi Hj. destruct (squares_exact i j Hi Hj) as (-> & Hs).
  cbv zeta. unfold of_Z, fsqrt.
  assert (Hr : 0 <= IZR (i * i + j * j)) by (apply IZR_le; exact Hs).
  rewrite Rltb_false by exact Hr. split; [reflexivity|].
  unfold fne. f_equal.
  destruct (Z.eq_dec (i * i + j * j) 0) as [Hz | Hnz].
  - assert (i = 0%Z /\ j = 0%Z) as (-> & ->) by nia.
    simpl. rewrite sqrt_0. apply Reqb_true. reflexivity.
  - assert (Hpos : 0 < IZR (i * i + j * j)) by (apply IZR_lt; lia).
    rewrite Reqb_false by (pose proof (sqrt_lt_R0 _ Hpos); lra).
    symmetry. apply andb_false_iff.
    destruct (Z.eq_dec i 0) as [-> | Hi0].
    + right. apply Z.eqb_neq. intros ->. apply Hnz. reflexivity.
    + left. apply Z.eqb_neq. exact Hi0.
Qed.

(** X7. For tables of offsets below [2^31] in size and any batch of
    subscripts that [get_steps] accepts, the four returned arrays are as
    long as the batch, every distance is the Euclidean length of the
    offset returned with it, and a step is flagged as moving exactly when
    its offset is not [(0, 0)]. *)
Theorem get_steps_moving_iff_offset (cells iw jw : list Z)
    (dist : list f64) (istep jstep : list Z) (astep : list bool) :
  Forall small iw -> Forall small jw ->
  get_steps cells iw jw = Ok (dist, istep, jstep, astep) ->
  length dist = length cells /\ length istep = length cells /\
  length jstep = length cells /\ length astep = length cells /\
  forall p, (p < length cells)%nat ->
    let i := nth p istep 0%Z in
    let j := nth p jstep 0%Z in
    nth p dist NaN = Fin (sqrt (IZR (i * i + j * j))) /\
    nth p astep false = negb ((i =? 0)%Z && (j =? 0)%Z).
Proof.
  intros Hiw Hjw H. unfold get_steps in H.
  destruct (take iw cells) as [is_|] eqn:Ei; simpl in H; [|discriminate].
  destruct (take jw cells) as [js_|] eqn:Ej; simpl in H; [|discriminate].
  injection H as <- <- <- <-.
  destruct (take_spec _ _ _ Ei) as (Hli & Hini).
  destruct (take_spec _ _ _ Ej) as (Hlj & Hinj).
  assert (Hlen : length (map2 add (map2 mul is_ is_) (map2 mul js_ js_))
                 = length cells).
  { rewrite map2_length; rewrite !map2_length; congruence. }
  split; [|split; [|split; [|split]]];
    rewrite ?length_map; try assumption.
  intros p Hp. cbv zeta.
  rewrite Forall_forall in Hiw, Hjw, Hini, Hinj.
  assert (Hsi : small (nth p is_ 0%Z))
    by (apply Hiw, Hini, nth_In; lia).
  assert (Hsj : small (nth p js_ 0%Z))
    by (apply Hjw, Hinj, nth_In; lia).
  destruct (step_entry _ _ Hsi Hsj) as (Hd & Ha).
  assert (Hentry :
    nth p (map fsqrt (map of_Z (map2 add (map2 mul is_ is_)
                                         (map2 mul js_ js_)))) NaN
    = fsqrt (of_Z (add (mul (nth p is_ 0%Z) (nth p is_ 0%Z))
                       (mul (nth p js_ 0%Z) (nth p js_ 0%Z))))).
  { rewrite map_map.
    rewrite (nth_map_lt _ _ _ 0%Z NaN) by lia.
    rewrite (map2_nth _ _ _ _ 0%Z 0%Z) by (rewrite ?map2_length; lia).
    rewrite !(map2_nth _ _ _ _ 0%Z 0%Z) by lia. reflexivity. }
  split.
  - rewrite Hentry. exact Hd.
  - rewrite (nth_map_lt _ _ _ NaN false) by (rewrite !length_map; lia).
    rewrite Hentry. exact Ha.
Qed.

Lemma flat_tables_small :
  Forall small (flat get_iwalk) /\ Forall small (flat get_jwalk).
Proof.
  split; simpl; repeat (constructor; [unfold small; lia|]); constructor.
Qed.

Lemma get_steps_moving_iff_offset_witness :
  let dist := [Fin (sqrt 2); Fin 0] in
  let istep := [1; 0]%Z in
  let jstep := [(-1); 0]%Z in
  let astep := [true; false] in
  length dist = 2%nat /\ length istep = 2%nat /\
  length jstep = 2%nat /\ length astep = 2%nat /\
  forall p, (p < 2)%nat ->
    let i := nth p istep 0%Z in
    let j := nth p jstep 0%Z in
    nth p dist NaN = Fin (sqrt (IZR (i * i + j * j))) /\
    nth p astep false = negb ((i =? 0)%Z && (j =? 0)%Z).
Proof.
  intros dist istep jstep astep.
  apply (get_steps_moving_iff_offset [2; 4]%Z (flat get_iwalk) (flat get_jwalk)
           dist istep jstep astep).
  - exact (proj1 flat_tables_small).
  - exact (proj2 flat_tables_small).
  - subst dist istep jstep astep. StepsProps.steps_eval.
Defined.

Lemma getitem_negative {A : Type} (a : list A) (k : Z) :
  (0 <= k < Z.of_nat (length a))%Z ->
  getitem a (k - Z.of_nat (length a)) = getitem a k.
Proof.
  intros Hk. unfold getitem.
  replace (k - Z.of_nat (length a) <? 0)%Z with true
    by (symmetry; apply Z.ltb_lt; lia).
  replace (k <? 0)%Z with false by (symmetry; apply Z.ltb_ge; lia).
  replace (k - Z.of_nat (length a) + Z.of_nat (length a))%Z with k by lia.
  reflexivity.
Qed.

(** X8. A negative subscript counts from the end of the tables: with
    tables of [n] directions, direction [k - n] resolves to the same step
    as direction [k]. *)
Theorem get_steps_negative_subscript (iw jw : list Z) (k : Z) :
  length iw = length jw ->
  (0 <= k < Z.of_nat (length iw))%Z ->
  get_steps [(k - Z.of_nat (length iw))%Z] iw jw = get_steps [k] iw jw.
Proof.
  intros Hlen Hk. unfold get_steps. cbn [take].
  rewrite (getitem_negative iw k Hk).
  rewrite Hlen. rewrite (getitem_negative jw k) by lia.
  reflexivity.
Qed.

Lemma get_steps_negative_subscript_witness :
  get_steps [(4 - 9)%Z] (flat get_iwalk) (flat get_jwalk)
  = get_steps [4%Z] (flat get_iwalk) (flat get_jwalk).
Proof.
  apply (get_steps_negative_subscript (flat get_iwalk) (flat get_jwalk) 4).
  - reflexivity.
  - simpl. lia.
Defined.

End StepsExtra.

(* ===================================================================== *)
(** ** Weights: exclusions, probabilities and the builder's range *)
(* ===================================================================== *)

Module WeightsExtra.

Import Float FloatFacts Weights WeightsProps Vocabulary.
Open Scope R_scope.

(** Equality of two arrays of finite entries, entry by entry. *)
Ltac fin_list_eq :=
  repeat match goal with
  | |- Ok _ = Ok _ => apply f_equal
  | |- _ :: _ = _ :: _ => apply f_equal2
  | |- Fin _ = Fin _ =>
      apply f_equal; first [lra | field; repeat split; lra]
  | |- @nil _ = @nil _ => reflexivity
  end.

(** *** Entries that hold the invalid marker *)

Lemma fmul_nan_r (x : f64) : fmul x NaN = NaN.
Proof. destruct x; reflexivity. Qed.

Lemma mask_set_nth (mask : list bool) (v : f64) (w : list f64) (k : nat) :
  length mask = length w -> (k < length w)%nat ->
  nth k (mask_set mask v w) NaN = if nth k mask false then v else nth k w NaN.
Proof.
  intros Hl Hk. unfold mask_set.
  rewrite (map2_nth _ _ _ _ false NaN) by lia. reflexivity.
Qed.

Lemma prefix_set_nth (n : nat) (v : f64) (w : list f64) (k : nat) :
  (k < n)%nat -> (k < length w)%nat -> nth k (prefix_set n v w) NaN = v.
Proof.
  revert w k. induction n as [|n IH]; intros [|x t] k Hn Hk; simpl in *;
    try lia.
  destruct k as [|k]; [reflexivity|]. apply IH; lia.
Qed.

Lemma normalize_nan (w : list f64) (k : nat) :
  (k < length w)%nat -> nth k w NaN = NaN -> nth k (normalize w) NaN = NaN.
Proof.
  intros Hk Hn. unfold normalize. destruct (fgt _ _); [|exact Hn].
  rewrite (nth_map_lt _ _ _ NaN NaN) by exact Hk. rewrite Hn. reflexivity.
Qed.

(** What [masked] leaves at a position the first-row mask or the wall
    mask covers. *)
Lemma masked_nan (ind : Z * Z) (w depth : list f64) (ct : list Z)
      (dry : f64) (k : nat) :
  length w = length depth -> length depth = length ct ->
  (k < length depth)%nat ->
  nth k ct 0%Z = (-2)%Z \/ (fst ind = 0%Z /\ (k < 3)%nat) ->
  nth k (masked ind w depth ct dry) NaN = NaN.
Proof.
  intros Hw Hc Hk Hmask. unfold masked.
  set (w' := if (fst ind =? 0)%Z then prefix_set 3 NaN w else w).
  assert (Hl' : length w' = length w)
    by (unfold w'; destruct (fst ind =? 0)%Z;
        [apply prefix_set_length | reflexivity]).
  rewrite mask_set_nth
    by (rewrite ?drywall_mask_length by exact Hc; lia).
  destruct (nth k (drywall_mask depth ct dry) false) eqn:Em; [reflexivity|].
  destruct Hmask as [Hwall | (Hrow & Hk3)].
  - exfalso. unfold drywall_mask in Em.
    rewrite (map2_nth _ _ _ _ false false) in Em
      by (rewrite ?dry_mask_length, ?length_map; lia).
    rewrite (nth_map_lt _ _ _ 0%Z false) in Em by lia.
    rewrite Hwall in Em. simpl in Em. rewrite orb_true_r in Em. discriminate.
  - unfold w'. rewrite Hrow, Z.eqb_refl. apply prefix_set_nth; lia.
Qed.

Lemma modulated_nan (ind : Z * Z) (ws wi depth : list f64) (ct : list Z)
      (dry gamma theta : f64) (k : nat) :
  length ws = length depth -> length wi = length depth ->
  length depth = length ct ->
  (k < length depth)%nat ->
  nth k ct 0%Z = (-2)%Z \/ (fst ind = 0%Z /\ (k < 3)%nat) ->
  fle (nth k depth NaN) dry = false ->
  nth k (modulated_weight ind ws wi depth ct dry gamma theta) NaN = NaN.
Proof.
  intros Hs Hi Hc Hk Hmask Hwet.
  rewrite modulated_blended.
  rewrite mask_set_nth
    by (rewrite ?dry_mask_length, blended_length by assumption; lia).
  unfold dry_mask at 1. rewrite (nth_map_lt _ _ _ NaN false) by exact Hk.
  rewrite Hwet. unfold blended_weight.
  assert (Hms : length (masked ind ws depth ct dry) = length depth)
    by (apply masked_length; assumption).
  assert (Hmi : length (masked ind wi depth ct dry) = length depth)
    by (apply masked_length; assumption).
  rewrite (map2_nth _ _ _ _ NaN NaN).
  - rewrite (map2_nth _ _ _ _ NaN NaN)
      by (rewrite !length_map, !normalize_length; lia).
    rewrite (nth_map_lt (fmul gamma) _ _ NaN NaN)
      by (rewrite normalize_length; lia).
    rewrite normalize_nan; [| lia | apply masked_nan; assumption].
    rewrite fmul_nan_r. simpl fadd. apply fmul_nan_r.
  - rewrite length_map, map2_length;
      rewrite !length_map, !normalize_length; lia.
  - rewrite length_map. exact Hk.
Qed.

Lemma resolve_nan_entry (m : list f64) (k : nat) :
  (k < length m)%nat -> nth k m NaN = NaN -> nth k (resolve m) NaN = Fin 0.
Proof.
  intros Hk Hn. rewrite resolve_pointwise.
  destruct (existsb _ _);
    rewrite (nth_map_lt _ _ _ NaN NaN) by exact Hk; rewrite Hn; reflexivity.
Qed.

Lemma masked_entry_zero (ind : Z * Z) (ws wi depth : list f64) (ct : list Z)
      (dry gamma theta : f64) (w : list f64) (k : nat) :
  get_weight_at_cell ind ws wi depth ct dry gamma theta = Ok w ->
  (k < length depth)%nat ->
  nth k ct 0%Z = (-2)%Z \/ (fst ind = 0%Z /\ (k < 3)%nat) ->
  fle (nth k depth NaN) dry = false ->
  nth k w NaN = Fin 0.
Proof.
  intros Hw Hk Hmask Hwet.
  destruct (shapes_of_ok _ _ _ _ _ _ _ _ _ Hw) as (Hli & Hld & Hlc).
  apply shapes_agree in Hw. subst w.
  apply resolve_nan_entry.
  - rewrite modulated_length; congruence.
  - apply modulated_nan; auto; congruence.
Qed.

(** X9. A wall neighbour ([ct_nbrs == -2]) that is not dry gets the weight
    0, whatever the other arguments are and whichever branch resolves the
    array. *)
Theorem wall_gets_zero_weight (ind : Z * Z) (ws wi depth : list f64)
    (ct : list Z) (dry gamma theta : f64) (w : list f64) (k : nat) :
  get_weight_at_cell ind ws wi depth ct dry gamma theta = Ok w ->
  (k < length depth)%nat ->
  nth k ct 0%Z = (-2)%Z ->
  fle (nth k depth NaN) dry = false ->
  nth k w NaN = Fin 0.
Proof.
  intros Hw Hk Hwall Hwet.
  apply (masked_entry_zero ind ws wi depth ct dry gamma theta w k);
    auto.
Qed.

Lemma wall_gets_zero_weight_witness :
  let w := [Fin 0; Fin 0; Fin 0; Fin 0; Fin 0; Fin 0;
            Fin (1 / 3); Fin (1 / 3); Fin (1 / 3)] in
  get_weight_at_cell (1, 1)%Z flat_sfc flat_sfc wet_depth walls_upstream
                     (Fin (1 / 10)) (Fin (1 / 2)) (Fin 1) = Ok w /\
  nth 2 walls_upstream 0%Z = (-2)%Z /\
  nth 2 w NaN = Fin 0.
Proof.
  intros w. split; [exact uniform_fallback_three | split; [reflexivity|]].
  apply (wall_gets_zero_weight (1, 1)%Z flat_sfc flat_sfc wet_depth
           walls_upstream (Fin (1 / 10)) (Fin (1 / 2)) (Fin 1) w 2
           uniform_fallback_three).
  - simpl. lia.
  - reflexivity.
  - simpl. rdecide. reflexivity.
Defined.

(** X10. For a cell in the first row ([ind[0] == 0]) each of the first
    three directions whose neighbour is not dry gets the weight 0. *)
Theorem first_row_upstream_gets_zero (ind : Z * Z) (ws wi depth : list f64)
    (ct : list Z) (dry gamma theta : f64) (w : list f64) (k : nat) :
  get_weight_at_cell ind ws wi depth ct dry gamma theta = Ok w ->
  fst ind = 0%Z -> (k < 3)%nat -> (k < length depth)%nat ->
  fle (nth k depth NaN) dry = false ->
  nth k w NaN = Fin 0.
Proof.
  intros Hw Hrow Hk3 Hk Hwet.
  apply (masked_entry_zero ind ws wi depth ct dry gamma theta w k);
    auto.
Qed.

(** A cell of the first row with wet neighbours all around and a slope
    towards the three downstream ones. *)
Example first_row_weights :
  get_weight_at_cell (0, 2)%Z slope_sfc flat_sfc wet_depth no_walls
                     (Fin (1 / 10)) (Fin (1 / 2)) (Fin 1)
  = Ok [Fin 0; Fin 0; Fin 0; Fin 0; Fin 0; Fin 0;
        Fin (1 / 4); Fin (1 / 2); Fin (1 / 4)].
Proof.
  unfold slope_sfc, flat_sfc, wet_depth, no_walls. wcompute.
  fin_list_eq.
Qed.

Lemma first_row_upstream_gets_zero_witness :
  let w := [Fin 0; Fin 0; Fin 0; Fin 0; Fin 0; Fin 0;
            Fin (1 / 4); Fin (1 / 2); Fin (1 / 4)] in
  get_weight_at_cell (0, 2)%Z slope_sfc flat_sfc wet_depth no_walls
                     (Fin (1 / 10)) (Fin (1 / 2)) (Fin 1) = Ok w /\
  nth 1 w NaN = Fin 0.
Proof.
  intros w. split; [exact first_row_weights|].
  apply (first_row_upstream_gets_zero (0, 2)%Z slope_sfc flat_sfc wet_depth
           no_walls (Fin (1 / 10)) (Fin (1 / 2)) (Fin 1) w 1
           first_row_weights).
  - reflexivity.
  - lia.
  - simpl. lia.
  - simpl. rdecide. reflexivity.
Defined.

(** *** The result as a probability vector *)

Lemma entry_le_total (w : list f64) (r : R) :
  Forall nonneg w -> In (Fin r) w -> 0 <= r <= total w.
Proof.
  intros H. induction H as [|x t Hx Ht IH]; intros Hin; [contradiction|].
  pose proof (total_nonneg t Ht) as Hge. simpl.
  destruct Hin as [-> | Hin].
  - simpl in *. lra.
  - specialize (IH Hin). destruct x; simpl in *; try contradiction; lra.
Qed.

Lemma fsum_renormalised_all (w : list f64) (s a : R) :
  Forall nonneg w -> s <> 0 ->
  fold_left fadd
    (map (fun x => if isnan x then Fin 0 else fdiv x (Fin s)) w) (Fin a)
  = Fin (a + total w / s).
Proof.
  intros H Hs. revert a. induction H as [|x t Hx Ht IH]; intros a; simpl.
  - f_equal. field. exact Hs.
  - destruct x; simpl in Hx; try contradiction; simpl.
    + rewrite IH. f_equal. field. exact Hs.
    + rewrite Reqb_false by exact Hs. simpl. rewrite IH. f_equal. field.
      exact Hs.
Qed.

Lemma fsum_uniform (w : list f64) (c a : R) :
  fold_left fadd (map (fun x => if isnan x then Fin 0 else Fin c) w) (Fin a)
  = Fin (a + INR (length (filter (fun x => negb (isnan x)) w)) * c).
Proof.
  revert a. induction w as [|x t IH]; intros a.
  - simpl. f_equal. lra.
  - cbn [map fold_left filter].
    destruct (isnan x) eqn:En; cbn [negb fadd].
    + rewrite IH. f_equal. lra.
    + rewrite IH. f_equal. cbn [length]. rewrite S_INR. lra.
Qed.

Lemma resolve_probabilities (m : list f64) (k : nat) :
  Forall nonneg m ->
  (k < length m)%nat -> isnan (nth k m NaN) = false ->
  fsum (resolve m) = Fin 1 /\ Forall unit_interval (resolve m).
Proof.
  intros Hnn Hk Hv. rewrite resolve_pointwise.
  destruct (existsb _ _) eqn:Eb.
  - apply existsb_exists in Eb. destruct Eb as (x & Hin & Hne).
    apply filter_In in Hin. destruct Hin as (Hin & Hvx).
    apply negb_true_iff in Hvx.
    pose proof (total_pos m x Hnn Hin Hvx Hne) as Hpos.
    rewrite (nansum_total m Hnn). split.
    + unfold fsum. rewrite fsum_renormalised_all by (auto; lra).
      f_equal. field. lra.
    + apply Forall_map. apply Forall_forall. intros y Hy.
      pose proof (proj1 (Forall_forall nonneg m) Hnn y Hy) as Hy0.
      destruct y as [| | |r]; simpl in Hy0; try contradiction; simpl.
      * exists 0. split; [reflexivity | lra].
      * rewrite Reqb_false by lra.
        destruct (entry_le_total m r Hnn Hy) as (Hr0 & Hr1).
        exists (r / total m). split; [reflexivity|]. split.
        -- apply Rmult_le_pos; [exact Hr0|].
           apply Rlt_le, Rinv_0_lt_compat. exact Hpos.
        -- apply (Rmult_le_reg_r (total m)); [exact Hpos|].
           unfold Rdiv. rewrite Rmult_assoc, Rinv_l by lra. lra.
  - pose proof (count_valid_pos m k Hk Hv) as Hc.
    rewrite (uniform_share_pos m Hc).
    assert (Hk1 : 1 <= INR (count_valid m))
      by (change 1 with (INR 1); apply le_INR; lia).
    split.
    + unfold fsum. rewrite fsum_uniform.
      unfold count_valid. rewrite valid_mask_select.
      unfold count_valid in Hk1. rewrite valid_mask_select in Hk1.
      f_equal. field. lra.
    + apply Forall_map. apply Forall_forall. intros y _.
      destruct (isnan y).
      * exists 0. split; [reflexivity | lra].
      * exists (1 / INR (count_valid m)). split; [reflexivity|]. split.
        -- apply Rlt_le, Rdiv_lt_0_compat; lra.
        -- apply (Rmult_le_reg_r (INR (count_valid m))); [lra|].
           unfold Rdiv. rewrite Rmult_assoc, Rinv_l by lra. lra.
Qed.

(** X11. On well-formed inputs with at least one valid entry in the
    modulated array, the result is a probability vector whichever branch
    resolves it: every entry is a finite number in [0, 1] and the entries
    add up to 1 (in exact arithmetic). *)
Theorem weights_are_probabilities (ind : Z * Z) (ws wi depth : list f64)
    (ct : list Z) (dry gamma theta : f64) (m w : list f64) (k : nat) :
  well_formed ws wi depth dry gamma theta ->
  m = modulated_weight ind ws wi depth ct dry gamma theta ->
  get_weight_at_cell ind ws wi depth ct dry gamma theta = Ok w ->
  (k < length m)%nat -> isnan (nth k m NaN) = false ->
  fsum w = Fin 1 /\ Forall unit_interval w.
Proof.
  intros Hwf Hm Hw Hk Hv.
  apply shapes_agree in Hw. rewrite <- Hm in Hw. subst w.
  apply (resolve_probabilities m k); auto.
  subst m. apply nonneg_modulated. exact Hwf.
Qed.

Lemma weights_are_probabilities_witness :
  let m := [Fin 0; Fin 0; Fin 0; Fin 0; Fin 0; Fin 0;
            Fin (1 / 8); Fin (1 / 4); Fin (1 / 8)] in
  fsum (resolve m) = Fin 1 /\ Forall unit_interval (resolve m).
Proof.
  intros m.
  apply (weights_are_probabilities (2, 2)%Z slope_sfc flat_sfc
           downstream_depth no_walls (Fin (1 / 10)) (Fin (1 / 2)) (Fin 1)
           m (resolve m) 0).
  - exact downstream_well_formed.
  - symmetry. exact downstream_modulated.
  - unfold get_weight_at_cell. simpl.
    rewrite downstream_modulated. reflexivity.
  - simpl. lia.
  - reflexivity.
Defined.

(** X12. When every neighbour is at or below the dry depth, every
    direction gets the same weight [1/n], whatever the raw weights, the
    cell types, the row, [gamma] and [theta] are: the parcel is sent to a
    dry cell with certainty. *)
Theorem all_dry_uniform_any_length (ind : Z * Z) (ws wi depth : list f64)
    (ct : list Z) (dry gamma theta : f64) (n : nat) :
  length ws = S n -> length wi = S n -> length depth = S n ->
  length ct = S n ->
  Forall (fun d => fle d dry = true) depth ->
  get_weight_at_cell ind ws wi depth ct dry gamma theta
  = Ok (repeat (Fin (1 / INR (S n))) (S n)).
Proof.
  intros Hs Hi Hd Hc Hdry.
  apply all_dry_gives_uniform; assumption.
Qed.

Lemma all_dry_uniform_any_length_witness :
  get_weight_at_cell (0, 0)%Z [PInf; NaN] [Fin 3; Fin 1] [Fin 0; NInf]
                     [-2; 0]%Z (Fin (1 / 10)) (Fin 2) (Fin 1)
  = Ok (repeat (Fin (1 / INR 2)) 2).
Proof.
  apply (all_dry_uniform_any_length (0, 0)%Z [PInf; NaN] [Fin 3; Fin 1]
           [Fin 0; NInf] [-2; 0]%Z (Fin (1 / 10)) (Fin 2) (Fin 1) 1);
    try reflexivity.
  repeat (constructor; [simpl; rdecide; reflexivity|]). constructor.
Defined.

(** *** The range of the weight field builder *)

Lemma floored_quotient_range (num d : R) :
  floored (fmax (Fin 0) (fdiv (Fin num) (Fin d))) /\
  (d <> 0 -> finite_nonneg (fmax (Fin 0) (fdiv (Fin num) (Fin d)))).
Proof.
  rewrite floored_quotient. unfold floored, finite_nonneg.
  assert (Hmax : 0 <= Rmax 0 (num / d)) by apply Rmax_l.
  split.
  - rcase d 0.
    + unfold floored_zero_divide. rcase num 0; [left; reflexivity|].
      rcase 0 num; [right; left; reflexivity|].
      right; right. exists 0. split; [reflexivity | lra].
    + right; right. eauto.
  - intros Hd. rewrite Reqb_false by exact Hd. eauto.
Qed.

Lemma sfc_entries (stage : R) (sn ds : list R) :
  length sn = length ds ->
  map (fmax (Fin 0))
      (map2 fdiv (map (fsub (Fin stage)) (map Fin sn)) (map Fin ds))
  = map2 (fun s d => fmax (Fin 0) (fdiv (Fin (stage - s)) (Fin d))) sn ds.
Proof.
  revert ds. induction sn as [|s t IH]; intros [|d td] H; simpl in *;
    try reflexivity; try discriminate.
  rewrite <- IH by lia. reflexivity.
Qed.

Lemma int_entries (qx qy : R) (iv jv ds : list R) :
  length iv = length ds -> length jv = length ds ->
  map (fmax (Fin 0))
      (map2 fdiv (map2 fadd (map (fmul (Fin qx)) (map Fin jv))
                            (map (fmul (Fin qy)) (map Fin iv)))
            (map Fin ds))
  = map2 (fun (ji : R * R) d =>
            fmax (Fin 0) (fdiv (Fin (qx * fst ji + qy * snd ji)) (Fin d)))
         (combine jv iv) ds.
Proof.
  revert iv ds. induction jv as [|j tj IH]; intros [|i ti] [|d td] Hi Hj;
    simpl in *; try reflexivity; try discriminate.
  rewrite <- IH by lia. reflexivity.
Qed.

Lemma builder_ok (stage qx qy : R) (sn iv jv ds : list R) :
  length sn = length ds -> length iv = length ds -> length jv = length ds ->
  get_weight_sfc_int (Fin stage) (map Fin sn) (Fin qx) (Fin qy)
                     (map Fin iv) (map Fin jv) (map Fin ds)
  = Ok (map2 (fun s d => fmax (Fin 0) (fdiv (Fin (stage - s)) (Fin d))) sn ds,
        map2 (fun (ji : R * R) d =>
                fmax (Fin 0) (fdiv (Fin (qx * fst ji + qy * snd ji)) (Fin d)))
             (combine jv iv) ds).
Proof.
  intros Hs Hi Hj. unfold get_weight_sfc_int.
  rewrite !length_map, Hs, Hi, Hj, Nat.eqb_refl. cbn [andb].
  rewrite sfc_entries, int_entries by assumption. reflexivity.
Qed.

Lemma Forall_map2_right {A B C : Type} (Q : B -> Prop) (T : C -> Prop)
      (f : A -> B -> C) (l1 : list A) (l2 : list B) :
  (forall a b, Q b -> T (f a b)) -> Forall Q l2 -> Forall T (map2 f l1 l2).
Proof.
  intros Hf H2. apply (Forall_map2 (fun _ => True) Q T); auto.
  apply Forall_forall. auto.
Qed.

(** X13. On finite inputs [get_weight_sfc_int] never returns a negative
    weight or a negative infinity: every entry of both surfaces is NaN,
    positive infinity, or a finite number that is not negative. *)
Theorem builder_weights_never_negative (stage qx qy : R)
    (sn iv jv ds : list R) :
  length sn = length ds -> length iv = length ds -> length jv = length ds ->
  exists sfc int,
    get_weight_sfc_int (Fin stage) (map Fin sn) (Fin qx) (Fin qy)
                       (map Fin iv) (map Fin jv) (map Fin ds)
    = Ok (sfc, int) /\
    Forall floored sfc /\ Forall floored int.
Proof.
  intros Hs Hi Hj. eexists. eexists.
  split; [apply builder_ok; assumption|].
  split; apply (Forall_map2_right (fun _ => True));
    try (apply Forall_forall; auto);
    intros a d _; apply floored_quotient_range.
Qed.

Lemma builder_weights_never_negative_witness :
  exists sfc int,
    get_weight_sfc_int (Fin 1) (map Fin nbr_stage) (Fin 0) (Fin 1)
                       (map Fin offsets_i) (map Fin offsets_j)
                       (map Fin distances_r)
    = Ok (sfc, int) /\
    Forall floored sfc /\ Forall floored int.
Proof.
  apply (builder_weights_never_negative 1 0 1 nbr_stage offsets_i offsets_j
           distances_r); reflexivity.
Defined.

(** X14. With finite inputs and no zero in the distance table, every
    entry of both surfaces is a finite number that is not negative: the
    builder's output then meets what the normaliser needs of its raw
    weights. *)
Theorem builder_feeds_normaliser (stage qx qy : R) (sn iv jv ds : list R) :
  length sn = length ds -> length iv = length ds -> length jv = length ds ->
  Forall (fun d => d <> 0) ds ->
  exists sfc int,
    get_weight_sfc_int (Fin stage) (map Fin sn) (Fin qx) (Fin qy)
                       (map Fin iv) (map Fin jv) (map Fin ds)
    = Ok (sfc, int) /\
    Forall finite_nonneg sfc /\ Forall finite_nonneg int /\
    Forall nonneg sfc /\ Forall nonneg int.
Proof.
  intros Hs Hi Hj Hd. eexists. eexists.
  split; [apply builder_ok; assumption|].
  assert (Hfin : forall (A : Type) (f : A -> R) (l : list A),
            Forall finite_nonneg
              (map2 (fun a d => fmax (Fin 0) (fdiv (Fin (f a)) (Fin d))) l ds)).
  { intros A f l. apply (Forall_map2_right (fun d => d <> 0)); [|exact Hd].
    intros a d Hd0. apply floored_quotient_range. exact Hd0. }
  assert (Hnn : forall l, Forall finite_nonneg l -> Forall nonneg l).
  { intros l. apply Forall_impl. intros x (r & -> & Hr). exact Hr. }
  pose proof (Hfin R (fun s => stage - s) sn) as H1.
  pose proof (Hfin (R * R)%type (fun ji => qx * fst ji + qy * snd ji)
                   (combine jv iv)) as H2.
  repeat split; auto.
Qed.

Lemma distances_unit_centre_nonzero :
  Forall (fun d => d <> 0) distances_unit_centre.
Proof.
  pose proof (sqrt_lt_R0 2 ltac:(lra)).
  unfold distances_unit_centre. repeat (constructor; [lra|]). constructor.
Defined.

Lemma builder_feeds_normaliser_witness :
  exists sfc int,
    get_weight_sfc_int (Fin 1) (map Fin nbr_stage) (Fin 0) (Fin 1)
                       (map Fin offsets_i) (map Fin offsets_j)
                       (map Fin distances_unit_centre)
    = Ok (sfc, int) /\
    Forall finite_nonneg sfc /\ Forall finite_nonneg int /\
    Forall nonneg sfc /\ Forall nonneg int.
Proof.
  apply (builder_feeds_normaliser 1 0 1 nbr_stage offsets_i offsets_j
           distances_unit_centre); try reflexivity.
  exact distances_unit_centre_nonzero.
Defined.

(** *** Builder and normaliser together *)

Lemma all_zero_repeat (l : list f64) :
  Forall is_zero l -> l = repeat (Fin 0) (length l).
Proof.
  induction 1 as [|x t Hx Ht IH]; simpl; [reflexivity|].
  rewrite <- IH. rewrite Hx. reflexivity.
Qed.

Lemma repeat_all_zero (n : nat) : Forall is_zero (repeat (Fin 0) n).
Proof.
  apply Forall_forall. intros x Hx. apply repeat_spec in Hx. exact Hx.
Qed.

Lemma mask_all_false (mask : list bool) (v : f64) (w : list f64) :
  length mask = length w -> Forall (fun b => b = false) mask ->
  mask_set mask v w = w.
Proof.
  unfold mask_set. revert w.
  induction mask as [|b t IH]; intros [|x tw] Hlen Hall; simpl in *;
    try reflexivity; try discriminate.
  inversion Hall as [|? ? Hb Ht]; subst.
  rewrite IH by (auto; lia). reflexivity.
Qed.

Lemma normalize_zeros (w : list f64) : Forall is_zero w -> normalize w = w.
Proof.
  intros H. unfold normalize.
  assert (Hnn : Forall nonneg w).
  { eapply Forall_impl; [|exact H]. intros x ->. simpl. lra. }
  assert (Ht : total w = 0).
  { clear Hnn. induction H as [|x t Hx _ IH]; simpl; [reflexivity|].
    rewrite Hx, IH. simpl. lra. }
  rewrite (nansum_total w Hnn), Ht. unfold fgt, flt.
  rewrite Rltb_false by lra. reflexivity.
Qed.

(** Wet neighbours only, no walls, a cell outside the first row: nothing
    is masked. *)
Lemma masked_nothing (ind : Z * Z) (w : list f64) (depth : list R)
      (ct : list Z) (dd : R) :
  length w = length depth -> length depth = length ct ->
  fst ind <> 0%Z ->
  Forall (fun c => c <> (-2)%Z) ct -> Forall (fun d => dd < d) depth ->
  masked ind w (map Fin depth) ct (Fin dd) = w.
Proof.
  intros Hw Hc Hrow Hct Hwet. unfold masked.
  replace (fst ind =? 0)%Z with false by (symmetry; apply Z.eqb_neq; exact Hrow).
  apply mask_all_false.
  - rewrite drywall_mask_length; rewrite length_map; congruence.
  - unfold drywall_mask, dry_mask. rewrite map_map.
    apply (Forall_map2 (fun b => b = false) (fun b => b = false)).
    + intros a b -> ->. reflexivity.
    + apply Forall_map. eapply Forall_impl; [|exact Hwet].
      intros d Hd. simpl. apply Rleb_false. exact Hd.
    + apply Forall_map. eapply Forall_impl; [|exact Hct].
      intros c Hc0. apply Z.eqb_neq. exact Hc0.
Qed.

Lemma modulated_zeros (ind : Z * Z) (depth : list R) (ct : list Z)
      (dd g t : R) (n : nat) :
  length depth = n -> length ct = n ->
  fst ind <> 0%Z -> 0 <= dd ->
  Forall (fun c => c <> (-2)%Z) ct -> Forall (fun d => dd < d) depth ->
  modulated_weight ind (repeat (Fin 0) n) (repeat (Fin 0) n)
                   (map Fin depth) ct (Fin dd) (Fin g) (Fin t)
  = repeat (Fin 0) n.
Proof.
  intros Hd Hc Hrow Hdd Hct Hwet.
  assert (Hz : Forall is_zero
            (modulated_weight ind (repeat (Fin 0) n) (repeat (Fin 0) n)
                              (map Fin depth) ct (Fin dd) (Fin g) (Fin t))).
  { unfold modulated_weight, dry_mask.
    rewrite !masked_nothing by (rewrite ?repeat_length; auto; congruence).
    rewrite !normalize_zeros by apply repeat_all_zero.
    rewrite mask_set_map2.
    apply (Forall_map2 (fun d => exists r, d = Fin r /\ dd < r) is_zero).
    - intros d x (r & -> & Hr) ->. unfold fle. rcase r dd; [reflexivity|].
      destruct (fpow_wet r dd t Hdd Hr) as (p & -> & _).
      unfold is_zero. simpl. f_equal. ring.
    - apply Forall_map. eapply Forall_impl; [|exact Hwet]. eauto.
    - apply (Forall_map2 is_zero is_zero).
      + intros a b -> ->. unfold is_zero. simpl. f_equal. ring.
      + apply Forall_map. eapply Forall_impl; [|apply repeat_all_zero].
        intros x ->. unfold is_zero. simpl. f_equal. ring.
      + apply Forall_map. eapply Forall_impl; [|apply repeat_all_zero].
        intros x ->. unfold is_zero. simpl. f_equal. ring. }
  rewrite (all_zero_repeat _ Hz) at 1.
  rewrite modulated_length;
    rewrite ?repeat_length, ?length_map; congruence.
Qed.

Lemma builder_still_water (stage : R) (iv jv ds : list R) (n : nat) :
  length ds = n -> length iv = n -> length jv = n ->
  Forall (fun d => d <> 0) ds ->
  get_weight_sfc_int (Fin stage) (repeat (Fin stage) n) (Fin 0) (Fin 0)
                     (map Fin iv) (map Fin jv) (map Fin ds)
  = Ok (repeat (Fin 0) n, repeat (Fin 0) n).
Proof.
  intros Hd Hi Hj Hnz.
  replace (repeat (Fin stage) n) with (map Fin (repeat stage n))
    by apply map_repeat.
  rewrite builder_ok by (rewrite ?repeat_length; congruence).
  assert (Hq : forall num d, num = 0 -> d <> 0 ->
            is_zero (fmax (Fin 0) (fdiv (Fin num) (Fin d)))).
  { intros num d -> Hd0. rewrite floored_quotient, Reqb_false by exact Hd0.
    unfold is_zero. f_equal. unfold Rdiv. rewrite Rmult_0_l.
    apply Rmax_left. lra. }
  f_equal. f_equal.
  - rewrite (all_zero_repeat (map2 _ (repeat stage n) ds)).
    + rewrite map2_length; rewrite repeat_length; congruence.
    + apply (Forall_map2 (fun s => s = stage) (fun d => d <> 0)); auto.
      * intros s d -> Hd0. apply Hq; [lra | exact Hd0].
      * apply Forall_forall. intros s Hs. apply repeat_spec in Hs. exact Hs.
  - rewrite (all_zero_repeat (map2 _ (combine jv iv) ds)).
    + rewrite map2_length; rewrite length_combine; [|lia]. f_equal. lia.
    + apply (Forall_map2_right (fun d => d <> 0)); auto.
      intros ji d Hd0. apply Hq; [lra | exact Hd0].
Qed.

(** X15. Still water on a flat stage: with the stage of every neighbour
    equal to the cell's, no discharge, non-zero distances, wet neighbours
    without walls and a cell outside the first row, the weights built by
    [get_weight_sfc_int] and resolved by [get_weight_at_cell] are the same
    [1/n] for all [n] directions. *)
Theorem still_water_uniform (ind : Z * Z) (stage : R) (iv jv ds depth : list R)
    (ct : list Z) (dd g t : R) (n : nat) :
  length ds = S n -> length iv = S n -> length jv = S n ->
  length depth = S n -> length ct = S n ->
  Forall (fun d => d <> 0) ds ->
  fst ind <> 0%Z -> 0 <= dd ->
  Forall (fun c => c <> (-2)%Z) ct -> Forall (fun d => dd < d) depth ->
  (p <- get_weight_sfc_int (Fin stage) (repeat (Fin stage) (S n))
                           (Fin 0) (Fin 0)
                           (map Fin iv) (map Fin jv) (map Fin ds) ;;
   get_weight_at_cell ind (fst p) (snd p) (map Fin depth) ct
                      (Fin dd) (Fin g) (Fin t))
  = Ok (repeat (Fin (1 / INR (S n))) (S n)).
Proof.
  intros Hd Hi Hj Hdep Hc Hnz Hrow Hdd Hct Hwet.
  rewrite builder_still_water by assumption. cbn [bind fst snd].
  rewrite shapes_ok by (rewrite ?repeat_length, ?length_map; congruence).
  rewrite modulated_zeros by assumption.
  apply f_equal. apply resolve_all_zero.
Qed.

Lemma still_water_uniform_witness :
  (p <- get_weight_sfc_int (Fin 3) (repeat (Fin 3) 9) (Fin 0) (Fin 0)
                           (map Fin offsets_i) (map Fin offsets_j)
                           (map Fin distances_unit_centre) ;;
   get_weight_at_cell (2, 2)%Z (fst p) (snd p) (map Fin (repeat 1 9))
                      no_walls (Fin (1 / 10)) (Fin (1 / 2)) (Fin 1))
  = Ok (repeat (Fin (1 / INR 9)) 9).
Proof.
  apply (still_water_uniform (2, 2)%Z 3 offsets_i offsets_j
           distances_unit_centre (repeat 1 9) no_walls (1 / 10) (1 / 2) 1 8);
    try reflexivity.
  - exact distances_unit_centre_nonzero.
  - simpl. lia.
  - lra.
  - unfold no_walls. simpl. repeat (constructor; [lia|]). constructor.
  - simpl. repeat (constructor; [lra|]). constructor.
Defined.

End WeightsExtra.

(* ===================================================================== *)
(** ** Weights: valid and invalid directions *)
(* ===================================================================== *)

Module WeightsValidity.

Import Float FloatFacts Weights WeightsProps Vocabulary WeightsExtra.
Open Scope R_scope.

(** *** The fallback and the dry directions *)

(** C1.  Three wet neighbours downstream (directions 6, 7, 8), six dry
    ones, no walls, a flat stage without discharge.  The three valid
    directions all have weight zero after modulation, so the fallback is
    taken; it hands 1/9 to every direction, the six dry ones included,
    where the three valid directions should hold 1/3 each and the dry ones
    0: line 128 has replaced the NaN marker of the dry entries by 0, and
    line 136 counts them as valid. *)
Theorem fallback_shares_with_dry_directions :
  valid_directions (1, 1)%Z downstream_depth no_walls (Fin (1 / 10))
  = [false; false; false; false; false; false; true; true; true] /\
  modulated_weight (1, 1)%Z flat_sfc flat_sfc downstream_depth no_walls
                   (Fin (1 / 10)) (Fin (1 / 2)) (Fin 1)
  = repeat (Fin 0) 9 /\
  get_weight_at_cell (1, 1)%Z flat_sfc flat_sfc downstream_depth no_walls
                     (Fin (1 / 10)) (Fin (1 / 2)) (Fin 1)
  = Ok (repeat (Fin (1 / 9)) 9).
Proof.
  split; [|split].
  - unfold valid_directions, invalid_mask, invalid_direction,
      downstream_depth, no_walls.
    cbn. rdecide. reflexivity.
  - unfold flat_sfc, downstream_depth, no_walls. wcompute. fin_list_eq.
  - unfold flat_sfc, downstream_depth, no_walls. wcompute. reflexivity.
Qed.

(** *** Raw weights as the builder returns them *)









(** *** Sums over the valid directions *)











End WeightsValidity.

(* ===================================================================== *)
(** ** Weighted sampler: which index is picked *)
(* ===================================================================== *)

Module SamplerExtra.

Import Float FloatFacts Sampler SamplerProps.
Open Scope R_scope.

Lemma partial_sum_0 (p : R) (t : list R) : partial_sum (p :: t) 0 = p.
Proof. unfold partial_sum. simpl. lra. Qed.

Lemma partial_sum_step (ps : list R) (k : nat) :
  (S k < length ps)%nat ->
  partial_sum ps (S k) = partial_sum ps k + nth (S k) ps 0.
Proof.
  revert k. induction ps as [|p t IH]; intros k Hk; simpl in Hk; [lia|].
  rewrite partial_sum_cons. destruct k as [|k].
  - destruct t as [|q t']; simpl in Hk; [lia|].
    rewrite !partial_sum_0. simpl. lra.
  - rewrite partial_sum_cons, IH by lia. simpl. lra.
Qed.

Section RandomStream.

Variable rng : Type.
Variable uniform01 : rng -> R * rng.
Hypothesis uniform01_range : forall s, 0 <= fst (uniform01 s) < 1.

(** What the search returns on non-negative weights, and what
    [random_pick] makes of it. *)
Lemma pick_cases (ps : list R) (s : rng) :
  Forall (fun p => 0 <= p) ps ->
  exists r : nat,
    (r <= length ps)%nat /\
    (forall j, (j < r)%nat -> partial_sum ps j < fst (uniform01 s)) /\
    (forall j, (r <= j)%nat -> (j < length ps)%nat ->
               fst (uniform01 s) <= partial_sum ps j) /\
    random_pick uniform01 (map Fin ps) s =
    (if (r <? length ps)%nat then Ok (Z.of_nat r) else Raise UncheckedRead,
     snd (uniform01 s)).
Proof.
  intros Hnn. rewrite random_pick_unfold.
  destruct (searchsorted_cumsum ps (fst (uniform01 s)) Hnn) as (Hr & Hlt & Hge).
  set (r := searchsorted _ _) in *. exists r.
  split; [exact Hr | split; [exact Hlt | split; [exact Hge|]]].
  destruct (r <? length ps)%nat eqn:E.
  - apply Nat.ltb_lt in E. rewrite getitem_arange by exact E. reflexivity.
  - apply Nat.ltb_ge in E. assert (r = length ps) as -> by lia.
    rewrite getitem_arange_end. reflexivity.
Qed.

(** The search stays inside the array when the draw is at most the sum
    of the weights. *)
Lemma pick_reached (ps : list R) (s : rng) :
  Forall (fun p => 0 <= p) ps ->
  0 < fst (uniform01 s) <= Rsum ps ->
  exists r : nat,
    (r < length ps)%nat /\
    (forall j, (j < r)%nat -> partial_sum ps j < fst (uniform01 s)) /\
    fst (uniform01 s) <= partial_sum ps r /\
    random_pick uniform01 (map Fin ps) s = (Ok (Z.of_nat r), snd (uniform01 s)).
Proof.
  intros Hnn Hu.
  destruct (pick_cases ps s Hnn) as (r & Hr & Hlt & Hge & Heq).
  assert (Hrn : (r < length ps)%nat).
  { destruct (le_lt_dec (length ps) r) as [Hc | Hc]; [|exact Hc].
    destruct ps as [|p t]; [unfold Rsum in Hu; simpl in Hu; lra|].
    specialize (Hlt (length t) ltac:(simpl in *; lia)).
    rewrite partial_sum_all in Hlt by (simpl; lia). lra. }
  exists r. split; [exact Hrn | split; [exact Hlt | split]].
  - apply Hge; [apply Nat.le_refl | exact Hrn].
  - rewrite Heq. apply Nat.ltb_lt in Hrn. rewrite Hrn. reflexivity.
Qed.

(** X16. With a draw that is above zero and at most the sum of the
    weights, [random_pick] on non-negative weights returns an index inside
    the array, and the weight at that index is strictly positive: a
    direction of weight zero is never selected. *)
Theorem pick_has_positive_weight (ps : list R) (s : rng) :
  Forall (fun p => 0 <= p) ps ->
  0 < fst (uniform01 s) <= Rsum ps ->
  exists k : nat,
    random_pick uniform01 (map Fin ps) s
    = (Ok (Z.of_nat k), snd (uniform01 s)) /\
    (k < length ps)%nat /\ 0 < nth k ps 0.
Proof.
  intros Hnn Hu.
  destruct (pick_reached ps s Hnn Hu) as (r & E & Hlt & Hge & Heq).
  exists r. split; [exact Heq | split; [exact E|]].
  assert (Hnth : 0 <= nth r ps 0).
  { apply (proj1 (Forall_forall _ ps) Hnn). apply nth_In. exact E. }
  destruct r as [|r].
  - destruct ps as [|p t]; simpl in E; [lia|].
    rewrite partial_sum_0 in Hge. simpl in *. lra.
  - specialize (Hlt r (Nat.lt_succ_diag_r r)).
    rewrite partial_sum_step in Hge by exact E. lra.
Qed.

(** X17. A draw of exactly zero selects index 0 of any non-empty array of
    non-negative weights, also when the weight of index 0 is zero. *)
Theorem zero_draw_picks_first (ps : list R) (s : rng) :
  Forall (fun p => 0 <= p) ps ->
  ps <> [] ->
  fst (uniform01 s) = 0 ->
  random_pick uniform01 (map Fin ps) s = (Ok 0%Z, snd (uniform01 s)).
Proof.
  intros Hnn Hne Hu.
  destruct (pick_cases ps s Hnn) as (r & Hr & Hlt & _ & Heq).
  rewrite Heq. assert (r = 0%nat) as ->.
  { destruct r as [|r]; [reflexivity|]. exfalso.
    specialize (Hlt 0%nat ltac:(lia)).
    pose proof (partial_sum_nonneg ps 0 Hnn). lra. }
  destruct ps as [|p t]; [contradiction|]. reflexivity.
Qed.

(** X18. When the weights add up to less than the draw, the search runs
    to the end of the array: the subscript that [random_pick] applies to
    [arr] is [len(prob)], which is the length of [arr] and so one past its
    last position; the draw is consumed all the same. *)
Theorem light_weights_overrun (ps : list R) (s : rng) :
  Forall (fun p => 0 <= p) ps ->
  Rsum ps < fst (uniform01 s) ->
  searchsorted (cumsum (map Fin ps)) (Fin (fst (uniform01 s)))
  = length (arange (length (map Fin ps))) /\
  length (arange (length (map Fin ps))) = length ps /\
  snd (random_pick uniform01 (map Fin ps) s) = snd (uniform01 s).
Proof.
  intros Hnn Hu.
  assert (Hlen : length (arange (length (map Fin ps))) = length ps)
    by (unfold arange; rewrite length_map, length_seq, length_map; reflexivity).
  rewrite Hlen, random_pick_one_draw.
  destruct (searchsorted_cumsum ps (fst (uniform01 s)) Hnn) as (Hr & _ & Hge).
  set (r := searchsorted _ _) in *.
  assert (Hrn : r = length ps).
  { destruct (le_lt_dec (length ps) r) as [Hc | Hc]; [lia|].
    specialize (Hge (length ps - 1)%nat ltac:(lia) ltac:(lia)).
    rewrite partial_sum_all in Hge by lia. lra. }
  rewrite Hrn. auto.
Qed.

(** For normalised weights of any length the subscript is in range. *)
Lemma pick_in_range (ps : list R) (s : rng) :
  Forall (fun p => 0 <= p) ps -> 1 <= Rsum ps ->
  exists r : nat,
    (r < length ps)%nat /\
    random_pick uniform01 (map Fin ps) s = (Ok (Z.of_nat r), snd (uniform01 s)).
Proof.
  intros Hnn Hsum.
  destruct (pick_cases ps s Hnn) as (r & Hr & Hlt & _ & Heq).
  pose proof (uniform01_range s) as Hu.
  assert (Hrn : (r < length ps)%nat).
  { destruct (le_lt_dec (length ps) r) as [Hc | Hc]; [|exact Hc].
    destruct ps as [|p t]; [unfold Rsum in Hsum; simpl in Hsum; lra|].
    specialize (Hlt (length t) ltac:(simpl in *; lia)).
    rewrite partial_sum_all in Hlt by (simpl; lia). lra. }
  exists r. split; [exact Hrn|].
  rewrite Heq. apply Nat.ltb_lt in Hrn. rewrite Hrn. reflexivity.
Qed.

End RandomStream.

Lemma quarters_nonneg : Forall (fun p => 0 <= p) [1 / 4; 1 / 4].
Proof. repeat (constructor; [lra|]). constructor. Defined.

Lemma zero_first_nonneg : Forall (fun p => 0 <= p) [0; 1].
Proof. repeat (constructor; [lra|]). constructor. Defined.

Lemma cycle_draw_3 : fst (cycle_stream 3) = 3 / 4.
Proof. unfold cycle_stream. simpl. lra. Qed.

Lemma cycle_draw_0 : fst (cycle_stream 0) = 0.
Proof. unfold cycle_stream. simpl. lra. Qed.

(** The draw 3/4 on two equal weights. *)
Lemma cycle_pick_second :
  random_pick cycle_stream (map Fin half_half) 3%nat = (Ok 1%Z, 4%nat).
Proof.
  destruct (pick_cases nat cycle_stream half_half 3%nat half_half_nonneg)
    as (r & Hr & Hlt & Hge & Heq).
  rewrite cycle_draw_3 in Hlt, Hge.
  assert (r = 1%nat) as ->.
  { destruct r as [|[|r]]; [| reflexivity |].
    - specialize (Hge 0%nat ltac:(lia) ltac:(simpl; lia)).
      unfold partial_sum, half_half in Hge. simpl in Hge. lra.
    - specialize (Hlt 1%nat ltac:(lia)).
      unfold partial_sum, half_half in Hlt. simpl in Hlt. lra. }
  exact Heq.
Qed.

Lemma pick_has_positive_weight_witness :
  exists k : nat,
    random_pick cycle_stream (map Fin half_half) 3%nat
    = (Ok (Z.of_nat k), snd (cycle_stream 3%nat)) /\
    (k < length half_half)%nat /\ 0 < nth k half_half 0.
Proof.
  apply (pick_has_positive_weight nat cycle_stream half_half 3%nat).
  - exact half_half_nonneg.
  - rewrite cycle_draw_3. unfold Rsum, half_half. simpl. lra.
Defined.

Lemma zero_draw_picks_first_witness :
  random_pick cycle_stream (map Fin [0; 1]) 0%nat
  = (Ok 0%Z, snd (cycle_stream 0)).
Proof.
  apply (zero_draw_picks_first nat cycle_stream [0; 1] 0%nat).
  - exact zero_first_nonneg.
  - discriminate.
  - exact cycle_draw_0.
Defined.

Lemma light_weights_overrun_witness :
  searchsorted (cumsum (map Fin [1 / 4; 1 / 4])) (Fin (fst (cycle_stream 3)))
  = length (arange (length (map Fin [1 / 4; 1 / 4]))) /\
  length (arange (length (map Fin [1 / 4; 1 / 4]))) = length [1 / 4; 1 / 4] /\
  snd (random_pick cycle_stream (map Fin [1 / 4; 1 / 4]) 3%nat)
  = snd (cycle_stream 3).
Proof.
  apply (light_weights_overrun nat cycle_stream [1 / 4; 1 / 4] 3%nat).
  - exact quarters_nonneg.
  - rewrite cycle_draw_3. unfold Rsum. simpl. lra.
Defined.

End SamplerExtra.

(* ===================================================================== *)
(** ** Start-position sampler *)
(* ===================================================================== *)

Module InletProps.

Import Float FloatFacts Sampler SamplerProps SamplerExtra Inlet.
Open Scope R_scope.

Lemma fsum_from_Fin (ws : list R) (a : R) :
  fold_left fadd (map Fin ws) (Fin a) = Fin (a + Rsum ws).
Proof.
  revert a. induction ws as [|w t IH]; intros a; simpl.
  - f_equal. unfold Rsum. simpl. lra.
  - rewrite IH. f_equal. unfold Rsum. simpl. lra.
Qed.

Lemma fsum_Fin (ws : list R) : fsum (map Fin ws) = Fin (Rsum ws).
Proof. unfold fsum. rewrite fsum_from_Fin. f_equal. lra. Qed.

Lemma Rsum_scaled (ws : list R) (c : R) :
  Rsum (map (fun w => w / c) ws) = Rsum ws / c.
Proof.
  unfold Rsum. induction ws as [|w t IH]; simpl.
  - unfold Rdiv. rewrite Rmult_0_l. reflexivity.
  - rewrite IH. unfold Rdiv. ring.
Qed.

Lemma Rsum_zeros (ws : list R) : Forall (fun w => w = 0) ws -> Rsum ws = 0.
Proof.
  unfold Rsum. induction 1 as [|w t Hw _ IH]; simpl; [reflexivity|].
  rewrite Hw, IH. lra.
Qed.

(** The normalised weights, for a total that is not zero. *)
Lemma normalised (ws : list R) :
  Rsum ws <> 0 ->
  map (fun w => fdiv w (fsum (map Fin ws))) (map Fin ws)
  = map Fin (map (fun w => w / Rsum ws) ws).
Proof.
  intros Hs. rewrite fsum_Fin, !map_map. apply map_ext. intros w.
  simpl. rewrite Reqb_false by exact Hs. reflexivity.
Qed.

Lemma take_in_range {A : Type} (a : list A) (idx : list Z) :
  Forall (fun i => (0 <= i < Z.of_nat (length a))%Z) idx ->
  exists xs, Steps.take a idx = Ok xs /\
             length xs = length idx /\ Forall (fun x => In x a) xs.
Proof.
  induction 1 as [|i rest Hi Hrest IH].
  - exists []. repeat split; constructor.
  - destruct IH as (xs & Hxs & Hl & Hin).
    assert (Hget : exists x, Steps.getitem a i = Ok x /\ In x a).
    { unfold Steps.getitem.
      replace (i <? 0)%Z with false by (symmetry; apply Z.ltb_ge; lia).
      replace (0 <=? i)%Z with true by (symmetry; apply Z.leb_le; lia).
      replace (i <? Z.of_nat (length a))%Z with true
        by (symmetry; apply Z.ltb_lt; lia).
      cbn [andb].
      destruct (nth_error a (Z.to_nat i)) as [x|] eqn:E.
      - exists x. split; [reflexivity | eapply nth_error_In; exact E].
      - apply nth_error_None in E. lia. }
    destruct Hget as (x & Hx & Hxin).
    exists (x :: xs). cbn [Steps.take]. rewrite Hx, Hxs. cbn [bind].
    repeat split; [simpl; congruence | constructor; assumption].
Qed.

Section RandomStream.

Variable rng : Type.
Variable uniform01 : rng -> R * rng.
Hypothesis uniform01_range : forall s, 0 <= fst (uniform01 s) < 1.

(** A draw that is not above the last cumulative sum is found inside the
    array. *)
Lemma pick_within (ps : list R) (s : rng) :
  Forall (fun p => 0 <= p) ps -> ps <> [] ->
  fst (uniform01 s) <= Rsum ps ->
  exists r : nat,
    (r < length ps)%nat /\
    random_pick uniform01 (map Fin ps) s = (Ok (Z.of_nat r), snd (uniform01 s)).
Proof.
  intros Hnn Hne Hu.
  destruct (pick_cases rng uniform01 ps s Hnn) as (r & Hr & Hlt & _ & Heq).
  assert (Hrn : (r < length ps)%nat).
  { destruct (le_lt_dec (length ps) r) as [Hc | Hc]; [|exact Hc].
    destruct ps as [|p t]; [contradiction|].
    specialize (Hlt (length t) ltac:(simpl in *; lia)).
    rewrite partial_sum_all in Hlt by (simpl; lia). lra. }
  exists r. split; [exact Hrn|].
  rewrite Heq. apply Nat.ltb_lt in Hrn. rewrite Hrn. reflexivity.
Qed.

Lemma pick_loop_within (ps : list R) (n : nat) (s : rng) :
  Forall (fun p => 0 <= p) ps -> ps <> [] ->
  (forall k, (k < n)%nat ->
     fst (uniform01 (draws uniform01 k s)) <= Rsum ps) ->
  exists idxs,
    pick_loop uniform01 n (map Fin ps) s = (Ok idxs, draws uniform01 n s) /\
    length idxs = n /\
    Forall (fun i => (0 <= i < Z.of_nat (length ps))%Z) idxs.
Proof.
  intros Hnn Hne. revert s. induction n as [|n IH]; intros s Hdraws.
  - exists []. repeat split; constructor.
  - destruct (pick_within ps s Hnn Hne (Hdraws 0%nat ltac:(lia)))
      as (r & Hr & Hpick).
    destruct (IH (snd (uniform01 s))) as (idxs & Hloop & Hl & Hin).
    { intros k Hk. apply (Hdraws (S k)). lia. }
    exists (Z.of_nat r :: idxs). cbn [pick_loop draws].
    rewrite Hpick, Hloop. cbn [bind].
    repeat split; [simpl; congruence | constructor; [lia | exact Hin]].
Qed.

(** The last cumulative sum of the normalised weights, as a real number. *)
Lemma norm_total_Fin (ws : list R) :
  ws <> [] -> Rsum ws <> 0 ->
  norm_total (map Fin ws) = Fin (Rsum (map (fun w => w / Rsum ws) ws)).
Proof.
  intros Hne Hs. unfold norm_total. rewrite normalised by exact Hs.
  set (ps := map (fun w => w / Rsum ws) ws).
  assert (Hlen : (0 < length ps)%nat).
  { unfold ps. rewrite length_map. destruct ws; [contradiction | simpl; lia]. }
  rewrite cumsum_Fin, length_map.
  rewrite (nth_map_lt _ _ _ 0 NaN) by (rewrite Rcumsum_length; lia).
  rewrite Rcumsum_nth by lia. rewrite partial_sum_all by lia. reflexivity.
Qed.

(** X19. With non-negative inlet weights of positive total, one weight per
    inlet cell, a positive count, and every draw at most the last entry of
    the cumulative sum of the normalised weights (which is 1 up to
    rounding), [get_start_indices] returns exactly [num_starts] cells, each
    of them one of the inlet cells, and leaves the stream [num_starts]
    draws further. *)
Theorem start_indices_from_inlet (inlet : list Z) (ws : list R) (n : nat)
    (s : rng) :
  Forall (fun w => 0 <= w) ws -> 0 < Rsum ws ->
  length inlet = length ws -> (0 < n)%nat ->
  (forall k, (k < n)%nat ->
     fle (Fin (fst (uniform01 (draws uniform01 k s))))
         (norm_total (map Fin ws)) = true) ->
  exists out,
    get_start_indices uniform01 inlet (map Fin ws) (Z.of_nat n) s
    = (Ok out, draws uniform01 n s) /\
    length out = n /\ Forall (fun c => In c inlet) out.
Proof.
  intros Hnn Hpos Hlen _ Hdraws.
  assert (Hne : ws <> []).
  { intros ->. unfold Rsum in Hpos. simpl in Hpos. lra. }
  rewrite norm_total_Fin in Hdraws by (auto; lra).
  unfold get_start_indices.
  rewrite normalised by lra. rewrite Nat2Z.id.
  set (ps := map (fun w => w / Rsum ws) ws) in *.
  assert (Hps : Forall (fun p => 0 <= p) ps).
  { unfold ps. apply Forall_map. eapply Forall_impl; [|exact Hnn].
    intros w Hw. simpl. apply Rmult_le_pos; [exact Hw|].
    apply Rlt_le, Rinv_0_lt_compat. exact Hpos. }
  assert (Hpne : ps <> []).
  { unfold ps. destruct ws; [contradiction | discriminate]. }
  assert (Hle : forall k, (k < n)%nat ->
            fst (uniform01 (draws uniform01 k s)) <= Rsum ps).
  { intros k Hk. specialize (Hdraws k Hk). simpl in Hdraws.
    apply Rleb_spec in Hdraws. exact Hdraws. }
  destruct (pick_loop_within ps n s Hps Hpne Hle) as (idxs & Hloop & Hl & Hin).
  rewrite Hloop. cbn [bind].
  assert (Hin' : Forall (fun i => (0 <= i < Z.of_nat (length inlet))%Z) idxs).
  { eapply Forall_impl; [|exact Hin]. intros i Hi.
    unfold ps in Hi. rewrite length_map in Hi. rewrite Hlen. exact Hi. }
  destruct (take_in_range inlet idxs Hin') as (out & Hout & Hlo & Hino).
  exists out. rewrite Hout. repeat split; [congruence | exact Hino].
Qed.

(** The search on an array of NaN never moves right. *)
Lemma searchsorted_loop_nan (a : list f64) (v : f64) (lo hi : nat) :
  Forall (fun x => x = NaN) a -> (lo <= hi)%nat -> (hi <= length a)%nat ->
  searchsorted_loop a v lo hi = lo.
Proof.
  intros Hnan. remember (hi - lo)%nat as d eqn:Hd. revert lo hi Hd.
  induction d as [d IH] using lt_wf_ind. intros lo hi Hd Hle Hhi.
  simp searchsorted_loop.
  destruct (lt_dec lo hi) as [Hlt | Hnlt]; simpl; [|reflexivity].
  change (fst (Nat.divmod (lo + hi) 1 0 1)) with ((lo + hi) / 2)%nat.
  assert (Hmid : (lo <= (lo + hi) / 2 < hi)%nat).
  { pose proof (Nat.div_mod_eq (lo + hi) 2).
    pose proof (Nat.mod_upper_bound (lo + hi) 2 ltac:(lia)). lia. }
  remember ((lo + hi) / 2)%nat as mid eqn:Hmid_def.
  assert (Hm : nth mid a NaN = NaN).
  { apply (proj1 (Forall_forall _ a) Hnan). apply nth_In. lia. }
  rewrite Hm. cbn [flt searchsorted_loop_unfold_clause_1_clause_1].
  rewrite <- ?Hmid_def.
  apply (IH (mid - lo)%nat); lia.
Qed.

Lemma cumsum_from_nan (acc : f64) (w : list f64) :
  Forall (fun x => x = NaN) w -> Forall (fun x => x = NaN) (cumsum_from acc w).
Proof.
  intros H. revert acc. induction H as [|x t Hx Ht IH]; intros acc; simpl.
  - constructor.
  - subst x. replace (fadd acc NaN) with NaN by (destruct acc; reflexivity).
    constructor; [reflexivity | apply IH].
Qed.

Lemma cumsum_nan (w : list f64) :
  Forall (fun x => x = NaN) w -> Forall (fun x => x = NaN) (cumsum w).
Proof.
  intros H. destruct H as [|x t Hx Ht]; simpl; [constructor|].
  constructor; [exact Hx | apply cumsum_from_nan; exact Ht].
Qed.

Lemma pick_loop_nan (w : list f64) (n : nat) (s : rng) :
  Forall (fun x => x = NaN) w -> w <> [] ->
  pick_loop uniform01 n w s = (Ok (repeat 0%Z n), draws uniform01 n s).
Proof.
  intros Hnan Hne. revert s. induction n as [|n IH]; intros s.
  - reflexivity.
  - cbn [pick_loop draws repeat].
    assert (Hpick : random_pick uniform01 w s = (Ok 0%Z, snd (uniform01 s))).
    { unfold random_pick, get_random_uniform.
      destruct (uniform01 s) as [u s']. cbn [snd].
      unfold searchsorted.
      rewrite searchsorted_loop_nan by (auto using cumsum_nan; lia).
      destruct w as [|x t]; [contradiction|]. reflexivity. }
    rewrite Hpick, IH. reflexivity.
Qed.

(** X20. With inlet weights that are all zero the normalised weights are
    all NaN, every search stops at index 0, and [get_start_indices]
    returns the first inlet cell [num_starts] times, still taking one draw
    per start. *)
Theorem zero_weights_start_at_first (c : Z) (rest : list Z) (ws : list R)
    (n : nat) (s : rng) :
  Forall (fun w => w = 0) ws -> ws <> [] -> (0 < n)%nat ->
  get_start_indices uniform01 (c :: rest) (map Fin ws) (Z.of_nat n) s
  = (Ok (repeat c n), draws uniform01 n s).
Proof.
  intros Hz Hne _. unfold get_start_indices. rewrite Nat2Z.id.
  pose proof (Rsum_zeros ws Hz) as Hsum.
  assert (Hnan : Forall (fun x => x = NaN)
            (map (fun w => fdiv w (fsum (map Fin ws))) (map Fin ws))).
  { rewrite fsum_Fin, Hsum, map_map. apply Forall_map.
    eapply Forall_impl; [|exact Hz]. intros w ->. simpl.
    rewrite !Reqb_true by reflexivity. reflexivity. }
  rewrite pick_loop_nan; [| exact Hnan |].
  - cbn [bind]. f_equal. induction n as [|n IH]; [reflexivity|].
    cbn [repeat Steps.take]. rewrite IH. reflexivity.
  - destruct ws; [contradiction | discriminate].
Qed.

End RandomStream.

Lemma inlet_weights_nonneg : Forall (fun w => 0 <= w) inlet_weights_r.
Proof.
  unfold inlet_weights_r. repeat (constructor; [lra|]). constructor.
Defined.

Lemma inlet_norm_total : norm_total (map Fin inlet_weights_r) = Fin 1.
Proof.
  rewrite norm_total_Fin.
  - unfold inlet_weights_r, Rsum. simpl. f_equal. field.
  - discriminate.
  - unfold inlet_weights_r, Rsum. simpl. lra.
Qed.

Lemma start_indices_from_inlet_witness :
  exists out,
    get_start_indices cycle_stream inlet_cells (map Fin inlet_weights_r)
                      (Z.of_nat 5) 0%nat
    = (Ok out, draws cycle_stream 5 0%nat) /\
    length out = 5%nat /\ Forall (fun c => In c inlet_cells) out.
Proof.
  apply (start_indices_from_inlet nat cycle_stream
           inlet_cells inlet_weights_r 5 0%nat).
  - exact inlet_weights_nonneg.
  - unfold Rsum, inlet_weights_r. simpl. lra.
  - reflexivity.
  - lia.
  - intros k Hk. rewrite inlet_norm_total. unfold fle.
    apply Rleb_true. pose proof (cycle_stream_range (draws cycle_stream k 0%nat)).
    lra.
Defined.

Lemma zero_weights_start_at_first_witness :
  get_start_indices cycle_stream [12; 13; 14]%Z (map Fin [0; 0; 0])
                    (Z.of_nat 4) 0%nat
  = (Ok (repeat 12%Z 4), draws cycle_stream 4 0%nat).
Proof.
  apply (zero_weights_start_at_first nat cycle_stream 12%Z [13; 14]%Z
           [0; 0; 0] 4 0%nat).
  - repeat (constructor; [reflexivity|]). constructor.
  - discriminate.
  - lia.
Defined.

End InletProps.

(* ===================================================================== *)
(** ** Model time scaling *)
(* ===================================================================== *)

Module TimeScaleProps.

Import Float FloatFacts TimeScale Vocabulary.
Import String.
Open Scope R_scope.
Open Scope string_scope.

Lemma agree_eq (a b : R) : a = b -> agree a b.
Proof.
  intros ->. unfold agree, tolerance.
  replace (b - b) with 0 by ring. rewrite Rabs_R0.
  apply Rmult_le_pos; [|apply Rabs_pos].
  apply Rlt_le, Rdiv_lt_0_compat; [lra|]. apply pow_lt. lra.
Qed.

Lemma scale_factor_known (f : R) (units : string) :
  known_units units ->
  _scale_factor (Fin f) units = Return (Fin (f * unit_seconds units)) /\
  0 < unit_seconds units.
Proof.
  intros [-> | [-> | ->]]; unfold _scale_factor, unit_seconds; simpl;
    (split; [reflexivity | lra]).
Qed.

Lemma scaled_value (t f : R) (units : string) :
  known_units units -> 0 < f <= 1 ->
  scale_model_time (Fin t) (Fin f) units
  = Return (Fin (t / (f * unit_seconds units))).
Proof.
  intros Hu Hf. unfold scale_model_time. unfold fle, fgt, flt.
  rewrite Rleb_false, Rltb_false by lra. cbn [orb].
  destruct (scale_factor_known f units Hu) as (-> & Hpos).
  assert (Hnz : f * unit_seconds units <> 0) by nra.
  unfold pydiv. rewrite Reqb_false by exact Hnz.
  unfold fdiv. rewrite Reqb_false by exact Hnz. reflexivity.
Qed.

(** X21. For a finite time and an intermittency in (0, 1] the three units
    agree with one another within the relative tolerance 1e-9: the time in
    seconds with 86400 times the time in days, and the time in days with
    365.25 times the time in years. *)
Theorem scaled_units_agree (t f : R) :
  0 < f <= 1 ->
  exists s d y,
    scale_model_time (Fin t) (Fin f) "seconds" = Return (Fin s) /\
    scale_model_time (Fin t) (Fin f) "days" = Return (Fin d) /\
    scale_model_time (Fin t) (Fin f) "years" = Return (Fin y) /\
    agree s (86400 * d) /\ agree d (1461 / 4 * y).
Proof.
  intros Hf.
  exists (t / (f * unit_seconds "seconds")),
         (t / (f * unit_seconds "days")),
         (t / (f * unit_seconds "years")).
  split; [apply scaled_value; [unfold known_units; auto | exact Hf]|].
  split; [apply scaled_value; [unfold known_units; auto | exact Hf]|].
  split; [apply scaled_value; [unfold known_units; auto | exact Hf]|].
  unfold unit_seconds; simpl. split; apply agree_eq; field; lra.
Qed.

Lemma scaled_units_agree_witness :
  exists s d y,
    scale_model_time (Fin 31557600) (Fin (1 / 2)) "seconds" = Return (Fin s) /\
    scale_model_time (Fin 31557600) (Fin (1 / 2)) "days" = Return (Fin d) /\
    scale_model_time (Fin 31557600) (Fin (1 / 2)) "years" = Return (Fin y) /\
    agree s (86400 * d) /\ agree d (1461 / 4 * y).
Proof. apply (scaled_units_agree 31557600 (1 / 2)). lra. Defined.

(** X22. Intermittency stretches time: for a time that is not negative,
    the scaled time with intermittency [If] in (0, 1], multiplied by [If],
    agrees with the scaled time with intermittency 1 within the relative
    tolerance 1e-9, and it is never shorter than that time; with the
    defaults ([If = 1], seconds) the time comes back unchanged. *)
Theorem intermittency_stretches_time (t f : R) (units : string) :
  known_units units -> 0 <= t -> 0 < f <= 1 ->
  exists s s1,
    scale_model_time (Fin t) (Fin f) units = Return (Fin s) /\
    scale_model_time (Fin t) (Fin 1) units = Return (Fin s1) /\
    agree s1 (s * f) /\ s1 <= s /\
    scale_model_time (Fin t) (Fin 1) "seconds" = Return (Fin t).
Proof.
  intros Hu Ht Hf.
  destruct (scale_factor_known f units Hu) as (_ & Hpos).
  exists (t / (f * unit_seconds units)), (t / (1 * unit_seconds units)).
  split; [apply scaled_value; assumption|].
  split; [apply scaled_value; [assumption | lra]|].
  assert (Hq : 0 <= t / unit_seconds units).
  { apply Rmult_le_pos; [exact Ht|]. apply Rlt_le, Rinv_0_lt_compat, Hpos. }
  assert (Hs : t / (f * unit_seconds units) = t / unit_seconds units / f)
    by (field; lra).
  split; [apply agree_eq; field; lra | split].
  - rewrite Hs. replace (t / (1 * unit_seconds units))
      with (t / unit_seconds units) by (field; lra).
    apply (Rmult_le_reg_r f); [lra|].
    unfold Rdiv at 2. rewrite Rmult_assoc, Rinv_l by lra. nra.
  - rewrite scaled_value by (unfold known_units; auto; lra).
    apply f_equal, f_equal. unfold unit_seconds; simpl. field.
Qed.

Lemma intermittency_stretches_time_witness :
  exists s s1,
    scale_model_time (Fin 86400) (Fin (1 / 4)) "days" = Return (Fin s) /\
    scale_model_time (Fin 86400) (Fin 1) "days" = Return (Fin s1) /\
    agree s1 (s * (1 / 4)) /\ s1 <= s /\
    scale_model_time (Fin 86400) (Fin 1) "seconds" = Return (Fin 86400).
Proof.
  apply (intermittency_stretches_time 86400 (1 / 4) "days").
  - unfold known_units. auto.
  - lra.
  - lra.
Defined.

Lemma known_units_dec (units : string) :
  {known_units units} + {~ known_units units}.
Proof.
  unfold known_units.
  destruct (string_dec units "seconds"); [left; auto|].
  destruct (string_dec units "days"); [left; auto|].
  destruct (string_dec units "years"); [left; auto|].
  right. tauto.
Qed.

Lemma scale_factor_unknown (If : f64) (units : string) :
  ~ known_units units -> _scale_factor If units = Throw ValueError.
Proof.
  intros Hn. unfold _scale_factor, known_units in *.
  destruct (String.eqb_spec units "seconds"); [tauto|].
  destruct (String.eqb_spec units "days"); [tauto|].
  destruct (String.eqb_spec units "years"); [tauto|].
  reflexivity.
Qed.

(** X23. [scale_model_time] raises its [ValueError] exactly when the
    intermittency fails the range check or the units are not one of the
    three known ones, and in no case divides by zero: every other call
    returns a value. *)
Theorem scale_model_time_errors (time If : f64) (units : string) :
  (scale_model_time time If units = Throw ValueError <->
   fle If (Fin 0) || fgt If (Fin 1) = true \/ ~ known_units units) /\
  scale_model_time time If units <> Throw ZeroDivision.
Proof.
  unfold scale_model_time.
  destruct (fle If (Fin 0) || fgt If (Fin 1)) eqn:Echeck.
  - split; [|discriminate]. split; auto.
  - destruct (known_units_dec units) as [Hu | Hu].
    + assert (Hret : exists v, match _scale_factor If units with
                               | Return factor => pydiv time factor
                               | Throw e => Throw e
                               end = Return v).
      { destruct If as [| | |f].
        - exists (fdiv time NaN).
          destruct Hu as [-> | [-> | ->]]; reflexivity.
        - discriminate Echeck.
        - discriminate Echeck.
        - unfold fle, fgt, flt in Echeck.
          apply orb_false_iff in Echeck. destruct Echeck as (E1 & E2).
          apply Rleb_false_iff in E1. apply Rltb_false_iff in E2.
          destruct (scale_factor_known f units Hu) as (-> & Hpos).
          unfold pydiv. rewrite Reqb_false by nra. eauto. }
      destruct Hret as (v & ->).
      split; [|discriminate]. split; [discriminate|].
      intros [H | H]; [discriminate | contradiction].
    + rewrite scale_factor_unknown by exact Hu.
      split; [|discriminate]. split; auto.
Qed.

(** X24. A NaN intermittency passes the range check: with known units the
    call does not raise and returns NaN, whatever the time is. *)
Theorem nan_intermittency_not_rejected (time : f64) (units : string) :
  known_units units ->
  scale_model_time time NaN units = Return NaN.
Proof.
  intros [-> | [-> | ->]]; unfold scale_model_time; simpl;
    destruct time; reflexivity.
Qed.

Lemma nan_intermittency_not_rejected_witness :
  scale_model_time (Fin 3600) NaN "days" = Return NaN.
Proof.
  apply (nan_intermittency_not_rejected (Fin 3600) "days").
  unfold known_units. auto.
Defined.

End TimeScaleProps.
